(** * The replay subsystem of optimus: worker and postgres repository

    A shallow embedding of [job.replayWorker.Process] (the replay worker)
    and of the tree and row conversions of [store/postgres/replay_repository.go],
    with the properties the specification states about them.

    Go values are modelled as follows.
    - [error] is an interface value with an [Error()] text; a nil error is
      [None : option error].
    - [time.Time] is the instant it denotes, an integer count of nanoseconds
      from the zero [Time].
    - a slice of bytes ([datatypes.JSON]) is [option (list Byte.byte)], where
      [None] is the nil slice.
    - a function that can panic returns a [Result]; a function that calls the
      repository or the scheduler threads a state and records the call. *)

From stdpp Require Import base option list sorting gmap strings.
From Stdlib Require Import ZArith.
From Stdlib.Strings Require Import Byte.

Local Open Scope string_scope.
Local Open Scope list_scope.
Local Open Scope Z_scope.

(** ** Go errors *)

(** An error value: one made from a text while the program runs
    ([errors.New] in a function body, and every error a collaborator hands
    back), a package-level error variable, which is the one value of its
    name ([gorm.ErrRecordNotFound]), or one that wraps a cause with a
    message ([errors.Wrapf] of github.com/pkg/errors). *)
Inductive error : Type :=
  | errorString (text : string)
  | errorVar (name text : string)
  | withMessage (cause : error) (msg : string).

(** [err.Error()]: a wrapped error prints its message, a colon and its cause. *)
Fixpoint Error (e : error) : string :=
  match e with
  | errorString s => s
  | errorVar _ s => s
  | withMessage cause msg => msg +:+ ": " +:+ Error cause
  end.

(** [errors.New(text)]. *)
Definition errors_New (text : string) : error := errorString text.

(** [errors.Wrapf(err, format, args...)] with the format already applied. *)
Definition errors_Wrapf (err : error) (msg : string) : error := withMessage err msg.

#[global] Instance error_eq_dec : EqDecision error.
Proof. solve_decision. Defined.

(** [err == target] on error values. They are pointers, compared by
    identity and not by text: two errors are known to be the same pointer
    only when they are the same package-level variable. *)
Definition error_same (err target : error) : bool :=
  match err, target with
  | errorVar a _, errorVar b _ => bool_decide (a = b)
  | _, _ => false
  end.

(** [errors.Is(err, target)]: [target] is [err] or one of its causes. *)
Fixpoint errors_Is (err target : error) : bool :=
  error_same err target ||
  match err with
  | withMessage cause _ => errors_Is cause target
  | _ => false
  end.

#[global] Instance byte_eq_decision : EqDecision byte := Byte.byte_eq_dec.

(** ** Panics and results *)

Inductive Panic : Type :=
  | IndexOutOfRange
  | NilPointerDereference.

Inductive Result (A : Type) : Type :=
  | Ok (a : A)
  | Panicked (p : Panic).
Arguments Ok {A} a.
Arguments Panicked {A} p.

#[global] Instance Result_ret : MRet Result := λ A a, Ok a.
#[global] Instance Result_bind : MBind Result := λ A B f r,
  match r with
  | Ok a => f a
  | Panicked p => Panicked p
  end.

(** A Go function over a state [St]: it returns or panics, and leaves a state. *)
Definition Go (St A : Type) : Type := St → Result A * St.

#[global] Instance Go_ret {St} : MRet (Go St) := λ A a st, (Ok a, st).
#[global] Instance Go_bind {St} : MBind (Go St) := λ A B f m st,
  match m st with
  | (Ok a, st') => f a st'
  | (Panicked p, st') => (Panicked p, st')
  end.

(** [xs[i]] on a slice, with Go's bounds check. *)
Definition index {A} (xs : list A) (i : Z) : Result A :=
  if decide (0 ≤ i < Z.of_nat (length xs)) then
    match xs !! Z.to_nat i with
    | Some x => Ok x
    | None => Panicked IndexOutOfRange
    end
  else Panicked IndexOutOfRange.

Definition liftResult {St A} (r : Result A) : Go St A := λ st, (r, st).

(** [time.Time], as the instant. *)
Abbreviation Time := Z.

(** ** Types of other packages

    [uuid.UUID] comes from github.com/google/uuid and [models.ProjectSpec]
    from a file of package models that this development does not embed:
    both are used as opaque values, with the zero value Go gives them. *)
Class Foreign : Type := {
  UUID : Type;
  UUID_Nil : UUID;
  UUID_String : UUID → string;
  ProjectSpec : Type;
  ProjectSpec_zero : ProjectSpec;
}.

(** ** Package set: the ordered set of run instants *)
Module set.

(** Modelled from the spec: the type of [TreeNode.Runs], of a package
    (core/set) whose source is not at hand: "a set of distinct time
    instants (ascending, de-duplicated)". *)
Abbreviation TreeSet := (gset Time).

(** Modelled from the spec: the empty set a new node starts with. *)
Definition NewTreeSet : TreeSet := ∅.

(** Modelled from the spec: [Runs.Add(run)]. *)
Definition Add (run : Time) (s : TreeSet) : TreeSet := {[run]} ∪ s.

(** Modelled from the spec: [Runs.Values()], the elements in ascending
    order ("assuming runs are sorted ascending"). *)
Definition Values (s : TreeSet) : list Time := merge_sort Z.le (elements s).

(** Modelled from the spec: [Runs.Size()], a Go int. *)
Definition Size (s : TreeSet) : Z := Z.of_nat (size s).

End set.

(** ** Package tree *)
Module tree.

(** Modelled from the spec: [tree.TreeData], what a node carries; the
    worker only asks it for the job name. *)
Class TreeData (D : Type) : Type := Data_GetName : D → string.

Section tree.
Context {D : Type} `{TreeData D}.

(** Modelled from the spec: [tree.TreeNode], of a package (core/tree) whose
    source is not at hand. [Data] is the payload; [Dependents] is the
    ordered sequence of dependents, a slice of node pointers with [None]
    for a nil pointer; [Runs] is the run set. *)
#[local] Unset Elimination Schemes.
Inductive TreeNode : Type :=
  mkTreeNode {
    Data : D;
    Dependents : list (option TreeNode);
    Runs : set.TreeSet;
  }.
#[local] Set Elimination Schemes.

(** Modelled from the spec: [tree.NewTreeNode(data)], a node without
    dependents and without runs. *)
Definition NewTreeNode (data : D) : TreeNode :=
  {| Data := data; Dependents := []; Runs := set.NewTreeSet |}.

(** Modelled from the spec: [t.AddDependent(depNode)] appends to the
    "ordered sequence" of dependents. *)
Definition AddDependent (depNode : option TreeNode) (t : TreeNode) : TreeNode :=
  {| Data := Data t; Dependents := Dependents t ++ [depNode]; Runs := Runs t |}.

(** [treeNode.Runs.Add(run)] on the node's own set. *)
Definition AddRun (run : Time) (t : TreeNode) : TreeNode :=
  {| Data := Data t; Dependents := Dependents t; Runs := set.Add run (Runs t) |}.

(** Modelled from the spec: [t.GetName()], the job name of the payload. *)
Definition GetName (t : TreeNode) : string := Data_GetName (Data t).

(** Every node of a tree, the root first: what "node in the tree" means.
    A nil dependent is no node. *)
Fixpoint nodes (t : TreeNode) : list TreeNode :=
  match t with
  | mkTreeNode _ deps _ => t :: flat_map (from_option nodes []) deps
  end.

(** A tree as the tree-resolution step builds it: no dependent is a nil
    pointer, at any depth. *)
Fixpoint constructed (t : TreeNode) : bool :=
  match t with
  | mkTreeNode _ deps _ => forallb (from_option constructed false) deps
  end.

End tree.
Arguments TreeNode D : clear implicits.
End tree.

(** ** Package models *)
Module models.
Section models.
Context `{Foreign}.

(** Modelled from the spec: [models.JobSpec], the job payload of a node
    ("name, project, and enough metadata"). The worker and the repository
    read its [ID], its [Project] and, through [GetName()], its name. *)
Record JobSpec : Type := {
  JobSpec_ID : UUID;
  JobSpec_Name : string;
  JobSpec_Project : ProjectSpec;
}.

(** [models.JobSpec{}] *)
Definition JobSpec_zero : JobSpec :=
  {| JobSpec_ID := UUID_Nil; JobSpec_Name := ""; JobSpec_Project := ProjectSpec_zero |}.

(** [jobSpec.Project = projectSpec] *)
Definition JobSpec_setProject (j : JobSpec) (p : ProjectSpec) : JobSpec :=
  {| JobSpec_ID := JobSpec_ID j; JobSpec_Name := JobSpec_Name j; JobSpec_Project := p |}.

(** [JobSpec] is a [tree.TreeData]: [GetName()] is the job's name. *)
#[global] Instance JobSpec_TreeData : tree.TreeData JobSpec := JobSpec_Name.

(** [models.ReplayMessage], with the two fields the worker fills. *)
Record ReplayMessage : Type := {
  ReplayMessage_Type : string;
  ReplayMessage_Message : string;
}.

(** [models.ReplayMessage{}] *)
Definition ReplayMessage_zero : ReplayMessage :=
  {| ReplayMessage_Type := ""; ReplayMessage_Message := "" |}.

(** Modelled from the spec: the status constants of package models, with
    the spellings of "Status values on the wire". *)
Definition ReplayStatusCreated : string := "Created".
Definition ReplayStatusInProgress : string := "InProgress".
Definition ReplayStatusReplayed : string := "Replayed".
Definition ReplayStatusFailed : string := "Failed".

(** [models.ReplaySpec], with the fields [Replay.ToSpec] fills.
    [ExecutionTree] is a node pointer: [None] is nil. *)
Record ReplaySpec : Type := {
  ReplaySpec_ID : UUID;
  ReplaySpec_Job : JobSpec;
  ReplaySpec_StartDate : Time;
  ReplaySpec_EndDate : Time;
  ReplaySpec_Status : string;
  ReplaySpec_Message : ReplayMessage;
  ReplaySpec_ExecutionTree : option (tree.TreeNode JobSpec);
  ReplaySpec_CreatedAt : Time;
}.

(** [models.ReplaySpec{}]; the zero [time.Time] is instant 0. *)
Definition ReplaySpec_zero : ReplaySpec :=
  {| ReplaySpec_ID := UUID_Nil;
     ReplaySpec_Job := JobSpec_zero;
     ReplaySpec_StartDate := 0;
     ReplaySpec_EndDate := 0;
     ReplaySpec_Status := "";
     ReplaySpec_Message := ReplayMessage_zero;
     ReplaySpec_ExecutionTree := None;
     ReplaySpec_CreatedAt := 0 |}.

End models.
End models.

(** ** Package postgres: the stored row and its conversions *)
Module postgres.
Import models.

(** [interface{}] values as [ExecutionTree.Data] holds them, and
    [mapstructure.Decode] (github.com/mitchellh/mapstructure) from such a
    value into a [models.JobSpec] that starts as the zero value. *)
Class Dynamic `{Foreign} : Type := {
  Any : Type;
  Any_nil : Any;
  toAny : JobSpec → Any;
  mapstructure_Decode : Any → JobSpec * option error;
}.

(** The joined rows of the other tables and the conversions of the other
    files of package postgres ([Job], [Project], [JobSpecAdapter]). *)
Class Rows `{Foreign} : Type := {
  Job : Type;
  Job_zero : Job;
  Project : Type;
  Job_Project : Job → Project;
  ApplicationKey : Type;
  JobSpecAdapter : Type;
  JobSpecAdapter_ToSpec : JobSpecAdapter → Job → JobSpec * option error;
  Project_ToSpecWithSecrets : Project → ApplicationKey → ProjectSpec * option error;
}.

Section rows.
Context `{Foreign} `{!Dynamic} `{!Rows}.

(** [datatypes.JSON], a byte slice; [None] is nil. *)
Definition JSON : Type := option (list byte).

Definition bytes (j : JSON) : list byte := default [] j.

Record Replay : Type := {
  Replay_ID : UUID;
  Replay_JobID : UUID;
  Replay_Job : Job;
  Replay_StartDate : Time;
  Replay_EndDate : Time;
  Replay_Status : string;
  Replay_Message : JSON;
  Replay_ExecutionTree : JSON;
  Replay_CreatedAt : Time;
  Replay_UpdatedAt : Time;
}.

(** [Replay{}] *)
Definition Replay_zero : Replay :=
  {| Replay_ID := UUID_Nil; Replay_JobID := UUID_Nil; Replay_Job := Job_zero;
     Replay_StartDate := 0; Replay_EndDate := 0; Replay_Status := "";
     Replay_Message := None; Replay_ExecutionTree := None;
     Replay_CreatedAt := 0; Replay_UpdatedAt := 0 |}.

(** [r.Status = status; r.Message = jsonBytes] *)
Definition Replay_setStatus (r : Replay) (status : string) (message : JSON) : Replay :=
  {| Replay_ID := Replay_ID r; Replay_JobID := Replay_JobID r; Replay_Job := Replay_Job r;
     Replay_StartDate := Replay_StartDate r; Replay_EndDate := Replay_EndDate r;
     Replay_Status := status; Replay_Message := message;
     Replay_ExecutionTree := Replay_ExecutionTree r;
     Replay_CreatedAt := Replay_CreatedAt r; Replay_UpdatedAt := Replay_UpdatedAt r |}.

(** The struct [ExecutionTree]; its dependents are pointers. *)
#[local] Unset Elimination Schemes.
Inductive ExecutionTree : Type :=
  mkExecutionTree {
    ExecutionTree_Data : Any;
    ExecutionTree_Dependents : list (option ExecutionTree);
    ExecutionTree_Runs : list Time;
  }.
#[local] Set Elimination Schemes.

(** [ExecutionTree{}] *)
Definition ExecutionTree_zero : ExecutionTree :=
  {| ExecutionTree_Data := Any_nil; ExecutionTree_Dependents := []; ExecutionTree_Runs := [] |}.

(** The first loop of [fromTreeNode], over the dependents: a nil
    dependent is dereferenced in the call, which panics. *)
Definition fromTreeNode_dependents
    (fromTreeNode : tree.TreeNode JobSpec → Result ExecutionTree)
  : list (option (tree.TreeNode JobSpec)) → Result (list (option ExecutionTree)) :=
  fix range ds :=
    match ds with
    | [] => Ok []
    | None :: _ => Panicked NilPointerDereference
    | Some dependent :: ds' =>
        e ← fromTreeNode dependent;
        dependents ← range ds';
        Ok (Some e :: dependents)
    end.

(** [fromTreeNode]. The two type assertions cannot fail on a node of job
    specifications with a set of instants. *)
Fixpoint fromTreeNode (executionTree : tree.TreeNode JobSpec) : Result ExecutionTree :=
  match executionTree with
  | tree.mkTreeNode data deps runs =>
      dependents ← fromTreeNode_dependents fromTreeNode deps;
      let runs := set.Values runs in
      Ok {| ExecutionTree_Data := toAny data;
            ExecutionTree_Dependents := dependents;
            ExecutionTree_Runs := runs |}
  end.

(** The first loop of [toTreeNode], which adds each dependent to
    [treeNode]; a nil dependent is dereferenced in the call. *)
Definition toTreeNode_dependents
    (toTreeNode : ExecutionTree → Result (option (tree.TreeNode JobSpec)))
  : list (option ExecutionTree) → tree.TreeNode JobSpec → Result (tree.TreeNode JobSpec) :=
  fix range ds treeNode :=
    match ds with
    | [] => Ok treeNode
    | None :: _ => Panicked NilPointerDereference
    | Some dependent :: ds' =>
        d ← toTreeNode dependent;
        range ds' (tree.AddDependent d treeNode)
    end.

(** [toTreeNode]: nil when the payload does not decode; a dependent that
    does not decode is added as a nil pointer. *)
Fixpoint toTreeNode (executionTree : ExecutionTree) : Result (option (tree.TreeNode JobSpec)) :=
  match executionTree with
  | mkExecutionTree data deps runs =>
      match mapstructure_Decode data with
      | (_, Some err) => Ok None
      | (jobSpec, None) =>
          let treeNode := tree.NewTreeNode jobSpec in
          treeNode ← toTreeNode_dependents toTreeNode deps treeNode;
          Ok (Some (foldl (λ t run, tree.AddRun run t) treeNode runs))
      end
  end.

(** What writing a tree out and reading it back does to it, for a byte
    codec that keeps the order of [Dependents] and of [Runs] and hands
    each payload back as [wire] of it ([json.Marshal] then
    [json.Unmarshal] turn a [models.JobSpec] into a generic map). *)
Fixpoint transport (wire : Any → Any) (e : ExecutionTree) : ExecutionTree :=
  match e with
  | mkExecutionTree data deps runs =>
      mkExecutionTree (wire data) (map (option_map (transport wire)) deps) runs
  end.

(** A payload tree none of whose dependents is a nil pointer, at any depth. *)
Fixpoint wellFormed (e : ExecutionTree) : bool :=
  match e with
  | mkExecutionTree _ deps _ => forallb (from_option wellFormed false) deps
  end.

End rows.

(** [json.Marshal] and [json.Unmarshal] (encoding/json) at the two types
    the repository stores, the latter into a zero value; and the queries
    the repository sends through gorm, each with the error it reports. *)
Class Backend `{Foreign} `{!Dynamic} `{!Rows} : Type := {
  json_Marshal_ReplayMessage : ReplayMessage → list byte * option error;
  json_Unmarshal_ReplayMessage : list byte → ReplayMessage * option error;
  json_Marshal_ExecutionTree : ExecutionTree → list byte * option error;
  json_Unmarshal_ExecutionTree : list byte → ExecutionTree * option error;
  DB : Type;
  (* DB.Where("id = ?", id).Preload("Job").Preload("Job.Project").
     Preload("Job.Project.Secrets").Find(&r).Error *)
  DB_FindPreloaded : DB → UUID → Replay * option error;
  (* DB.Where("id = ?", replayID).Find(&r).Error *)
  DB_Find : DB → UUID → Replay * option error;
  (* DB.Save(&r).Error *)
  DB_Save : DB → Replay → DB * option error;
  (* DB.Create(&r).Error *)
  DB_Create : DB → Replay → DB * option error;
}.

(** [gorm.ErrRecordNotFound] *)
Definition gorm_ErrRecordNotFound : error :=
  errorVar "gorm.ErrRecordNotFound" "record not found".

(** Modelled from the spec: the NotFound error of package store
    ([store.ErrResourceNotFound]); its text is not at hand and nothing
    below depends on it. *)
Definition store_ErrResourceNotFound : error :=
  errorVar "store.ErrResourceNotFound" "resource not found".

Section repository.
Context `{Foreign} `{!Dynamic} `{!Rows} `{!Backend}.

(** [Replay.FromSpec]. When the message does not marshal it returns the
    zero row and a nil error. [StartDate.UTC()] is the same instant. *)
Definition FromSpec (spec : ReplaySpec) : Result (Replay * option error) :=
  let '(message, err) := json_Marshal_ReplayMessage (ReplaySpec_Message spec) in
  match err with
  | Some _ => Ok (Replay_zero, None)
  | None =>
      r ← match ReplaySpec_ExecutionTree spec with
          | Some root =>
              e ← fromTreeNode root;
              let '(executionTree, err) := json_Marshal_ExecutionTree e in
              Ok (Some executionTree, err)
          | None => Ok (None, None)
          end;
      let '(executionTree, err) := r in
      match err with
      | Some err => Ok (Replay_zero, Some err)
      | None =>
          Ok ({| Replay_ID := ReplaySpec_ID spec;
                 Replay_JobID := JobSpec_ID (ReplaySpec_Job spec);
                 Replay_Job := Job_zero;
                 Replay_StartDate := ReplaySpec_StartDate spec;
                 Replay_EndDate := ReplaySpec_EndDate spec;
                 Replay_Status := ReplaySpec_Status spec;
                 Replay_Message := Some message;
                 Replay_ExecutionTree := executionTree;
                 Replay_CreatedAt := 0;
                 Replay_UpdatedAt := 0 |}, None)
      end
  end.

(** [Replay.ToSpec]. *)
Definition ToSpec (p : Replay) (jobSpec : JobSpec) : Result (ReplaySpec * option error) :=
  let '(message, err) := json_Unmarshal_ReplayMessage (bytes (Replay_Message p)) in
  match err with
  | Some _ => Ok (ReplaySpec_zero, None)
  | None =>
      let '(executionTree, err) :=
        match Replay_ExecutionTree p with
        | Some payload => json_Unmarshal_ExecutionTree payload
        | None => (ExecutionTree_zero, None)
        end in
      match err with
      | Some err => Ok (ReplaySpec_zero, Some err)
      | None =>
          root ← toTreeNode executionTree;
          Ok ({| ReplaySpec_ID := Replay_ID p;
                 ReplaySpec_Job := jobSpec;
                 ReplaySpec_StartDate := Replay_StartDate p;
                 ReplaySpec_EndDate := Replay_EndDate p;
                 ReplaySpec_Status := Replay_Status p;
                 ReplaySpec_Message := message;
                 ReplaySpec_ExecutionTree := root;
                 ReplaySpec_CreatedAt := Replay_CreatedAt p |}, None)
      end
  end.

Record replayRepository : Type := {
  repo_DB : DB;
  repo_adapter : JobSpecAdapter;
  repo_hash : ApplicationKey;
}.

Definition NewReplayRepository (db : DB) (jobAdapter : JobSpecAdapter) (hash : ApplicationKey)
  : replayRepository :=
  {| repo_DB := db; repo_adapter := jobAdapter; repo_hash := hash |}.

Definition withDB (repo : replayRepository) (db : DB) : replayRepository :=
  {| repo_DB := db; repo_adapter := repo_adapter repo; repo_hash := repo_hash repo |}.

(** [replayRepository.Insert] *)
Definition Insert (replay : ReplaySpec) : Go replayRepository (option error) := λ repo,
  match FromSpec replay with
  | Panicked p => (Panicked p, repo)
  | Ok (r, Some err) => (Ok (Some err), repo)
  | Ok (r, None) =>
      let '(db, err) := DB_Create (repo_DB repo) r in
      (Ok err, withDB repo db)
  end.

(** [replayRepository.GetByID] *)
Definition GetByID (id : UUID) : Go replayRepository (ReplaySpec * option error) := λ repo,
  let '(r, err) := DB_FindPreloaded (repo_DB repo) id in
  match err with
  | Some err =>
      if errors_Is err gorm_ErrRecordNotFound
      then (Ok (ReplaySpec_zero, Some store_ErrResourceNotFound), repo)
      else (Ok (ReplaySpec_zero, Some err), repo)
  | None =>
      let '(jobSpec, err) := JobSpecAdapter_ToSpec (repo_adapter repo) (Replay_Job r) in
      match err with
      | Some err => (Ok (ReplaySpec_zero, Some err), repo)
      | None =>
          let '(projectSpec, err) :=
            Project_ToSpecWithSecrets (Job_Project (Replay_Job r)) (repo_hash repo) in
          match err with
          | Some err => (Ok (ReplaySpec_zero, Some err), repo)
          | None =>
              let jobSpec := JobSpec_setProject jobSpec projectSpec in
              (ToSpec r jobSpec, repo)
          end
      end
  end.

(** [replayRepository.UpdateStatus] *)
Definition UpdateStatus (replayID : UUID) (status : string) (message : ReplayMessage)
  : Go replayRepository (option error) := λ repo,
  let '(r, err) := DB_Find (repo_DB repo) replayID in
  match err with
  | Some _ => (Ok (Some (errors_New "could not update non-existing replay")), repo)
  | None =>
      let '(jsonBytes, err) := json_Marshal_ReplayMessage message in
      match err with
      | Some err => (Ok (Some err), repo)
      | None =>
          let r := Replay_setStatus r status (Some jsonBytes) in
          let '(db, err) := DB_Save (repo_DB repo) r in
          (Ok err, withDB repo db)
      end
  end.

End repository.

(** The two bulk queries the repository sends through gorm, each with the
    rows it fills in and the error it reports. *)
Class Queries `{Foreign} `{!Dynamic} `{!Rows} `{!Backend} : Type := {
  (* DB.Where("status in (?)", status).Preload("Job").Preload("Job.Project").
     Preload("Job.Project.Secrets").Find(&replays).Error *)
  DB_FindByStatus : DB → list string → list Replay * option error;
  (* DB.Where("job_id = ? and status in (?)", jobID, status).Preload("Job").
     Find(&replays).Error *)
  DB_FindByJobIDAndStatus : DB → UUID → list string → list Replay * option error;
}.

Section queries.
Context `{Foreign} `{!Dynamic} `{!Rows} `{!Backend} `{!Queries}.

(** The loop of [GetByStatus] over the rows found; [replaySpecs] is the
    slice built so far. A row that does not convert ends the loop with the
    empty slice and the error. *)
Fixpoint GetByStatus_range (repo : replayRepository) (replays : list Replay)
    (replaySpecs : list ReplaySpec) : Result (list ReplaySpec * option error) :=
  match replays with
  | [] => Ok (replaySpecs, None)
  | r :: rest =>
      let '(jobSpec, err) := JobSpecAdapter_ToSpec (repo_adapter repo) (Replay_Job r) in
      match err with
      | Some err => Ok ([], Some err)
      | None =>
          let '(projectSpec, err) :=
            Project_ToSpecWithSecrets (Job_Project (Replay_Job r)) (repo_hash repo) in
          match err with
          | Some err => Ok ([], Some err)
          | None =>
              let jobSpec := JobSpec_setProject jobSpec projectSpec in
              '(replaySpec, err) ← ToSpec r jobSpec;
              match err with
              | Some err => Ok ([], Some err)
              | None => GetByStatus_range repo rest (replaySpecs ++ [replaySpec])
              end
          end
      end
  end.

(** [replayRepository.GetByStatus] *)
Definition GetByStatus (status : list string)
  : Go replayRepository (list ReplaySpec * option error) := λ repo,
  let '(replays, err) := DB_FindByStatus (repo_DB repo) status in
  match err with
  | Some err =>
      if errors_Is err gorm_ErrRecordNotFound
      then (Ok ([], Some store_ErrResourceNotFound), repo)
      else (Ok ([], Some err), repo)
  | None => (GetByStatus_range repo replays [], repo)
  end.

(** The loop of [GetByJobIDAndStatus]: as that of [GetByStatus], without
    the conversion of the project. *)
Fixpoint GetByJobIDAndStatus_range (repo : replayRepository) (replays : list Replay)
    (replaySpecs : list ReplaySpec) : Result (list ReplaySpec * option error) :=
  match replays with
  | [] => Ok (replaySpecs, None)
  | r :: rest =>
      let '(jobSpec, err) := JobSpecAdapter_ToSpec (repo_adapter repo) (Replay_Job r) in
      match err with
      | Some err => Ok ([], Some err)
      | None =>
          '(replaySpec, err) ← ToSpec r jobSpec;
          match err with
          | Some err => Ok ([], Some err)
          | None => GetByJobIDAndStatus_range repo rest (replaySpecs ++ [replaySpec])
          end
      end
  end.

(** [replayRepository.GetByJobIDAndStatus] *)
Definition GetByJobIDAndStatus (jobID : UUID) (status : list string)
  : Go replayRepository (list ReplaySpec * option error) := λ repo,
  let '(replays, err) := DB_FindByJobIDAndStatus (repo_DB repo) jobID status in
  match err with
  | Some err =>
      if errors_Is err gorm_ErrRecordNotFound
      then (Ok ([], Some store_ErrResourceNotFound), repo)
      else (Ok ([], Some err), repo)
  | None => (GetByJobIDAndStatus_range repo replays [], repo)
  end.

(** What [GetByID] and the loop of [GetByStatus] make of a row that was
    found: the job converted, its project converted and put in its place,
    then [ToSpec]. *)
Definition rowSpec (repo : replayRepository) (r : Replay) : Result (ReplaySpec * option error) :=
  let '(jobSpec, err) := JobSpecAdapter_ToSpec (repo_adapter repo) (Replay_Job r) in
  match err with
  | Some err => Ok (ReplaySpec_zero, Some err)
  | None =>
      let '(projectSpec, err) :=
        Project_ToSpecWithSecrets (Job_Project (Replay_Job r)) (repo_hash repo) in
      match err with
      | Some err => Ok (ReplaySpec_zero, Some err)
      | None => ToSpec r (JobSpec_setProject jobSpec projectSpec)
      end
  end.

End queries.
End postgres.

(** ** Package job: the replay worker *)
Module job.
Import models.

Definition AirflowClearDagRunFailed : string := "failed to clear airflow dag run".

(** The repository the worker's factory hands out, as the worker uses it
    ([store.ReplaySpecRepository]): each method runs on the repository's
    own state [R] and reports an error or nil. *)
Class ReplaySpecRepository `{Foreign} (R : Type) : Type := {
  UpdateStatus : UUID → string → ReplayMessage → R → option error * R;
  GetByID : UUID → R → (ReplaySpec * option error) * R;
}.

(** [models.SchedulerUnit], as the worker uses it, on the scheduler's own
    state [S]: [Clear(ctx, projSpec, jobName, startDate, endDate)]. *)
Class SchedulerUnit `{Foreign} (S : Type) : Type :=
  Clear : ProjectSpec → string → Time → Time → S → option error * S.

(** [ExecutionTree.GetAllNodes()] of package core/tree, whose source is not
    at hand and whose order the specification leaves open: any function of
    the root pointer. [None] is the nil pointer dereference a traversal of
    pointers can run into. *)
Class Flatten `{Foreign} : Type :=
  GetAllNodes : option (tree.TreeNode JobSpec) → option (list (tree.TreeNode JobSpec)).

Section worker.
Context `{Foreign} {R S : Type} `{!ReplaySpecRepository R} `{!SchedulerUnit S} `{!Flatten}.

(** What the worker does to the outside, in the order it does it. *)
Inductive Call : Type :=
  | CallUpdateStatus (id : UUID) (status : string) (message : ReplayMessage)
  | CallGetByID (id : UUID)
  | CallClear (project : ProjectSpec) (jobName : string) (startTime endTime : Time)
  | LogW (text : string)
  | LogI (text : string).

(** The worker's collaborators and the calls made so far. *)
Record World : Type := {
  repo : R;
  scheduler : S;
  calls : list Call;
}.

(** The world a fresh invocation starts in. *)
Definition start (r : R) (s : S) : World := {| repo := r; scheduler := s; calls := [] |}.

Definition record (c : Call) : Go World () := λ w,
  (Ok (), {| repo := repo w; scheduler := scheduler w; calls := calls w ++ [c] |}).

Definition onRepo {A} (m : R → A * R) : Go World A := λ w,
  let '(a, r) := m (repo w) in
  (Ok a, {| repo := r; scheduler := scheduler w; calls := calls w |}).

Definition onScheduler {A} (m : S → A * S) : Go World A := λ w,
  let '(a, s) := m (scheduler w) in
  (Ok a, {| repo := repo w; scheduler := s; calls := calls w |}).

Definition replaySpecRepo_UpdateStatus (id : UUID) (status : string) (message : ReplayMessage)
  : Go World (option error) :=
  record (CallUpdateStatus id status message);; onRepo (UpdateStatus id status message).

Definition replaySpecRepo_GetByID (id : UUID) : Go World (ReplaySpec * option error) :=
  record (CallGetByID id);; onRepo (GetByID id).

Definition scheduler_Clear (project : ProjectSpec) (jobName : string) (startTime endTime : Time)
  : Go World (option error) :=
  record (CallClear project jobName startTime endTime);;
  onScheduler (Clear project jobName startTime endTime).

Definition logger_W (text : string) : Go World () := record (LogW text).
Definition logger_I (text : string) : Go World () := record (LogI text).

(** [replaySpec.ExecutionTree.GetAllNodes()] *)
Definition ExecutionTree_GetAllNodes (replaySpec : ReplaySpec)
  : Result (list (tree.TreeNode JobSpec)) :=
  match GetAllNodes (ReplaySpec_ExecutionTree replaySpec) with
  | Some allNodes => Ok allNodes
  | None => Panicked NilPointerDereference
  end.

(** Lines 43 to 45 of [Process]: the first and the last of the node's run
    instants, each read with a bounds check. *)
Definition runRange (treeNode : tree.TreeNode JobSpec) : Result (Time * Time) :=
  let runTimes := set.Values (tree.Runs treeNode) in
  startTime ← index runTimes 0;
  endTime ← index runTimes (set.Size (tree.Runs treeNode) - 1);
  Ok (startTime, endTime).

(** The text [errors.Wrapf] puts before the scheduler's error. *)
Definition clearErrorText (jobName : string) : string :=
  "error while clearing dag runs for job " +:+ jobName.

(** The loop [for _, treeNode := range replayDagsMap] of [Process]:
    [Some e] when the body returned [e], [None] when the loop ran out. *)
Fixpoint rangeReplayDagsMap (reqUUID : UUID) (replaySpec : ReplaySpec)
    (replayDagsMap : list (tree.TreeNode JobSpec)) : Go World (option (option error)) :=
  match replayDagsMap with
  | [] => mret None
  | treeNode :: rest =>
      '(startTime, endTime) ← liftResult (runRange treeNode);
      err ← scheduler_Clear (JobSpec_Project (ReplaySpec_Job replaySpec))
              (tree.GetName treeNode) startTime endTime;
      match err with
      | Some err =>
          let err := errors_Wrapf err (clearErrorText (tree.GetName treeNode)) in
          logger_W ("error while running replay " +:+ UUID_String reqUUID +:+ ": " +:+ Error err);;
          updateStatusErr ← replaySpecRepo_UpdateStatus reqUUID ReplayStatusFailed
                              {| ReplayMessage_Type := AirflowClearDagRunFailed;
                                 ReplayMessage_Message := Error err |};
          match updateStatusErr with
          | Some updateStatusErr => mret (Some (Some updateStatusErr))
          | None => mret (Some (Some err))
          end
      | None => rangeReplayDagsMap reqUUID replaySpec rest
      end
  end.

(** [replayWorker.Process]; the context argument carries no data. *)
Definition Process (reqUUID : UUID) : Go World (option error) :=
  (* mark replay request in progress *)
  inProgressErr ← replaySpecRepo_UpdateStatus reqUUID ReplayStatusInProgress ReplayMessage_zero;
  match inProgressErr with
  | Some inProgressErr => mret (Some inProgressErr)
  | None =>
      '(replaySpec, err) ← replaySpecRepo_GetByID reqUUID;
      match err with
      | Some err => mret (Some err)
      | None =>
          replayDagsMap ← liftResult (ExecutionTree_GetAllNodes replaySpec);
          returned ← rangeReplayDagsMap reqUUID replaySpec replayDagsMap;
          match returned with
          | Some err => mret err
          | None =>
              err ← replaySpecRepo_UpdateStatus reqUUID ReplayStatusReplayed ReplayMessage_zero;
              match err with
              | Some err => mret (Some err)
              | None =>
                  logger_I ("successfully cleared instances of replay id: "
                            +:+ UUID_String reqUUID);;
                  mret None
              end
          end
      end
  end.

(** The nodes of the tree behind a root pointer. *)
Definition treeNodes (root : option (tree.TreeNode JobSpec)) : list (tree.TreeNode JobSpec) :=
  from_option tree.nodes [] root.

(** The [Clear] call the worker makes for a node whose range is
    [(startTime, endTime)]. *)
Definition clearCall (replaySpec : ReplaySpec) (treeNode : tree.TreeNode JobSpec)
    (startTime endTime : Time) : Call :=
  CallClear (JobSpec_Project (ReplaySpec_Job replaySpec)) (tree.GetName treeNode)
    startTime endTime.

(** [Cleared replaySpec visited s s' cs]: from state [s] the scheduler
    accepts the worker's [Clear] for each node of [visited], in that order,
    and ends in [s']; [cs] are the calls this takes. *)
Inductive Cleared (replaySpec : ReplaySpec)
  : list (tree.TreeNode JobSpec) → S → S → list Call → Prop :=
  | Cleared_nil s : Cleared replaySpec [] s s []
  | Cleared_cons treeNode rest startTime endTime s s' s'' cs :
      runRange treeNode = Ok (startTime, endTime) →
      Clear (JobSpec_Project (ReplaySpec_Job replaySpec)) (tree.GetName treeNode)
        startTime endTime s = (None, s') →
      Cleared replaySpec rest s' s'' cs →
      Cleared replaySpec (treeNode :: rest) s s''
        (clearCall replaySpec treeNode startTime endTime :: cs).

(** [Fetched reqUUID r r' replaySpec allNodes]: from the repository state
    [r], the request is marked in progress and read back as [replaySpec],
    whose tree flattens into [allNodes] in this order; the repository is
    left in [r']. *)
Definition Fetched (reqUUID : UUID) (r r' : R) (replaySpec : ReplaySpec)
    (allNodes : list (tree.TreeNode JobSpec)) : Prop :=
  ∃ r1,
    UpdateStatus reqUUID ReplayStatusInProgress ReplayMessage_zero r = (None, r1) ∧
    GetByID reqUUID r1 = ((replaySpec, None), r') ∧
    GetAllNodes (ReplaySpec_ExecutionTree replaySpec) = Some allNodes.

(** The two calls every invocation that gets to the tree starts with. *)
Definition fetchCalls (reqUUID : UUID) : list Call :=
  [CallUpdateStatus reqUUID ReplayStatusInProgress ReplayMessage_zero; CallGetByID reqUUID].

(** The replay [GetByID] hands to an invocation that starts from the
    repository state [r]. *)
Definition fetchedSpec (reqUUID : UUID) (r : R) : ReplaySpec :=
  let r1 := (UpdateStatus reqUUID ReplayStatusInProgress ReplayMessage_zero r).2 in
  (GetByID reqUUID r1).1.1.

(** [ownClear replaySpec allNodes c]: if [c] is a [Clear] call, it names
    the project of the replay's own job and the name and range of one of
    [allNodes]. *)
Definition ownClear (replaySpec : ReplaySpec) (allNodes : list (tree.TreeNode JobSpec))
    (c : Call) : Prop :=
  match c with
  | CallClear project jobName startTime endTime =>
      project = JobSpec_Project (ReplaySpec_Job replaySpec) ∧
      ∃ treeNode, treeNode ∈ allNodes ∧ jobName = tree.GetName treeNode ∧
                  runRange treeNode = Ok (startTime, endTime)
  | _ => True
  end.

(** The message [Process] records when the scheduler answers [err] to the
    [Clear] of [treeNode]. *)
Definition failedMessage (treeNode : tree.TreeNode JobSpec) (err : error) : ReplayMessage :=
  {| ReplayMessage_Type := AirflowClearDagRunFailed;
     ReplayMessage_Message :=
       Error (errors_Wrapf err (clearErrorText (tree.GetName treeNode))) |}.

(** Whether a call is a [Clear] of the scheduler. *)
Definition isClear (c : Call) : bool :=
  match c with
  | CallClear _ _ _ _ => true
  | _ => false
  end.

(** The [Clear] calls among [cs], in their order. *)
Definition clearCalls (cs : list Call) : list Call := List.filter isClear cs.

(** The status updates among [cs], in their order: the request, the status
    and the message of each. *)
Definition statusUpdates (cs : list Call) : list (UUID * string * ReplayMessage) :=
  omap (λ c, match c with
             | CallUpdateStatus id status message => Some (id, status, message)
             | _ => None
             end) cs.

(** What [Process] logs on success. *)
Definition successLog (reqUUID : UUID) : Call :=
  LogI ("successfully cleared instances of replay id: " +:+ UUID_String reqUUID).

(** What [Process] logs when the [Clear] of [treeNode] fails with [err]. *)
Definition failureLog (reqUUID : UUID) (treeNode : tree.TreeNode JobSpec) (err : error) : Call :=
  LogW ("error while running replay " +:+ UUID_String reqUUID +:+ ": " +:+
        Error (errors_Wrapf err (clearErrorText (tree.GetName treeNode)))).

(** [Ended reqUUID r s res w]: an invocation for [reqUUID] that starts with
    the repository in [r] and the scheduler in [s] ends with [res] in the
    world [w]. One rule for each way through [Process]: the first update
    fails; [GetByID] fails; the tree cannot be flattened; every node is
    cleared; a node is refused; the range of a node cannot be read. *)
Inductive Ended (reqUUID : UUID) (r : R) (s : S) : Result (option error) → World → Prop :=
  | Ended_mark inProgressErr r' :
      UpdateStatus reqUUID ReplayStatusInProgress ReplayMessage_zero r =
        (Some inProgressErr, r') →
      Ended reqUUID r s (Ok (Some inProgressErr))
        {| repo := r'; scheduler := s;
           calls := [CallUpdateStatus reqUUID ReplayStatusInProgress ReplayMessage_zero] |}
  | Ended_fetch r1 replaySpec err r2 :
      UpdateStatus reqUUID ReplayStatusInProgress ReplayMessage_zero r = (None, r1) →
      GetByID reqUUID r1 = ((replaySpec, Some err), r2) →
      Ended reqUUID r s (Ok (Some err))
        {| repo := r2; scheduler := s; calls := fetchCalls reqUUID |}
  | Ended_flatten r1 replaySpec r2 :
      UpdateStatus reqUUID ReplayStatusInProgress ReplayMessage_zero r = (None, r1) →
      GetByID reqUUID r1 = ((replaySpec, None), r2) →
      GetAllNodes (ReplaySpec_ExecutionTree replaySpec) = None →
      Ended reqUUID r s (Panicked NilPointerDereference)
        {| repo := r2; scheduler := s; calls := fetchCalls reqUUID |}
  | Ended_replayed r2 replaySpec allNodes s' cs res r3 :
      Fetched reqUUID r r2 replaySpec allNodes →
      Cleared replaySpec allNodes s s' cs →
      UpdateStatus reqUUID ReplayStatusReplayed ReplayMessage_zero r2 = (res, r3) →
      Ended reqUUID r s (Ok res)
        {| repo := r3; scheduler := s';
           calls := fetchCalls reqUUID ++ cs ++
             CallUpdateStatus reqUUID ReplayStatusReplayed ReplayMessage_zero ::
             match res with
             | None => [successLog reqUUID]
             | Some _ => []
             end |}
  | Ended_failed r2 replaySpec visited treeNode rest s1 cs startTime endTime err s2 res r3 :
      Fetched reqUUID r r2 replaySpec (visited ++ treeNode :: rest) →
      Cleared replaySpec visited s s1 cs →
      runRange treeNode = Ok (startTime, endTime) →
      Clear (JobSpec_Project (ReplaySpec_Job replaySpec)) (tree.GetName treeNode)
        startTime endTime s1 = (Some err, s2) →
      UpdateStatus reqUUID ReplayStatusFailed (failedMessage treeNode err) r2 = (res, r3) →
      Ended reqUUID r s
        (Ok (Some (default (errors_Wrapf err (clearErrorText (tree.GetName treeNode))) res)))
        {| repo := r3; scheduler := s2;
           calls := fetchCalls reqUUID ++ cs ++
             [clearCall replaySpec treeNode startTime endTime;
              failureLog reqUUID treeNode err;
              CallUpdateStatus reqUUID ReplayStatusFailed (failedMessage treeNode err)] |}
  | Ended_range r2 replaySpec visited treeNode rest s1 cs p :
      Fetched reqUUID r r2 replaySpec (visited ++ treeNode :: rest) →
      Cleared replaySpec visited s s1 cs →
      runRange treeNode = Panicked p →
      Ended reqUUID r s (Panicked p)
        {| repo := r2; scheduler := s1; calls := fetchCalls reqUUID ++ cs |}.

End worker.
Arguments World {_} R S.
End job.

(** ** In-memory collaborators

    Stand-ins for the collaborators, in the manner of the mocks a test of
    the worker uses: identifiers and projects are texts, the repository
    keeps one replay and refuses the status updates it is told to refuse,
    the scheduler refuses the jobs it is told to refuse, and the tree is
    flattened root first. *)
Module fixtures.
Import models.

Definition textForeign : Foreign :=
  {| UUID := string; UUID_Nil := ""; UUID_String := id;
     ProjectSpec := string; ProjectSpec_zero := "" |}.
#[local] Existing Instance textForeign.

Record memRepo : Type := {
  stored : ReplaySpec;
  refusedStatus : list string;
}.

Definition memRepo_UpdateStatus (_ : UUID) (status : string) (message : ReplayMessage)
    (r : memRepo) : option error * memRepo :=
  if decide (status ∈ refusedStatus r) then (Some (errors_New "storage unavailable"), r)
  else
    (None,
     {| stored :=
          {| ReplaySpec_ID := ReplaySpec_ID (stored r);
             ReplaySpec_Job := ReplaySpec_Job (stored r);
             ReplaySpec_StartDate := ReplaySpec_StartDate (stored r);
             ReplaySpec_EndDate := ReplaySpec_EndDate (stored r);
             ReplaySpec_Status := status;
             ReplaySpec_Message := message;
             ReplaySpec_ExecutionTree := ReplaySpec_ExecutionTree (stored r);
             ReplaySpec_CreatedAt := ReplaySpec_CreatedAt (stored r) |};
        refusedStatus := refusedStatus r |}).

Definition memRepo_GetByID (_ : UUID) (r : memRepo) : (ReplaySpec * option error) * memRepo :=
  ((stored r, None), r).

Definition memRepository : job.ReplaySpecRepository memRepo :=
  {| job.UpdateStatus := memRepo_UpdateStatus; job.GetByID := memRepo_GetByID |}.

(** The scheduler's state: the jobs whose runs it cannot clear. *)
Definition listScheduler : job.SchedulerUnit (list string) :=
  λ _ jobName _ _ down,
    if decide (jobName ∈ down) then (Some (errors_New "dag not found"), down) else (None, down).

Definition rootFirst : job.Flatten := λ root, tree.nodes <$> root.

(** Payloads that are the job specification itself, or nil. *)
Definition boxed : postgres.Dynamic :=
  {| postgres.Any := option JobSpec;
     postgres.Any_nil := None;
     postgres.toAny := Some;
     postgres.mapstructure_Decode := λ a, (default JobSpec_zero a, None) |}.

(** Job rows that are the job specification, project rows that are the
    project specification. *)
Definition plainRows : postgres.Rows :=
  {| postgres.Job := JobSpec;
     postgres.Job_zero := JobSpec_zero;
     postgres.Project := string;
     postgres.Job_Project := JobSpec_Project;
     postgres.ApplicationKey := ();
     postgres.JobSpecAdapter := ();
     postgres.JobSpecAdapter_ToSpec := λ _ j, (j, None);
     postgres.Project_ToSpecWithSecrets := λ p _, (p, None) |}.
#[local] Existing Instances boxed plainRows.

(** The two bytes of an empty JSON object. *)
Definition emptyObject : list byte := [x7b; x7d].

(** The two bytes of an empty JSON array. *)
Definition emptyArray : list byte := [x5b; x5d].

(** What [datatypes.JSON.Scan] lets into a row: a NULL column or valid
    JSON. The documents of this table are the empty object and the empty
    array; a column of other bytes does not scan. *)
Definition scans (j : postgres.JSON) : bool :=
  match j with
  | None => true
  | Some b => bool_decide (b = emptyObject) || bool_decide (b = emptyArray)
  end.

Definition loads (r : postgres.Replay) : bool :=
  scans (postgres.Replay_Message r) && scans (postgres.Replay_ExecutionTree r).

(** The instants [time.Time.MarshalJSON] accepts, those of the years 0 to
    9999, in nanoseconds from the zero [Time]. *)
Definition marshals (t : Time) : bool :=
  bool_decide (-31622400000000000 ≤ t < 315537897600000000000).

Fixpoint runsMarshal (e : postgres.ExecutionTree) : bool :=
  match e with
  | postgres.mkExecutionTree _ deps runs =>
      forallb marshals runs && forallb (from_option runsMarshal true) deps
  end.

(** What a lookup makes of the rows that match: the first of them, when
    its columns scan. *)
Definition found (matching : list postgres.Replay) : postgres.Replay * option error :=
  match matching with
  | r :: _ =>
      if loads r then (r, None)
      else (postgres.Replay_zero, Some (errors_New "unexpected end of JSON input"))
  | [] => (postgres.Replay_zero, Some postgres.gorm_ErrRecordNotFound)
  end.

(** A codec of two documents, and a table of rows looked up by identifier.
    The empty object reads as the zero value and the empty array as no
    struct at all. Every value is written as the empty object, so that
    only the zero message and the zero tree read back as they were
    written; a tree is not written when one of its runs is outside the
    years that JSON can carry. *)
Definition stubBackend : postgres.Backend :=
  {| postgres.json_Marshal_ReplayMessage := λ _, (emptyObject, None);
     postgres.json_Unmarshal_ReplayMessage := λ b,
       if decide (b = emptyObject) then (ReplayMessage_zero, None)
       else if decide (b = emptyArray) then
         (ReplayMessage_zero,
          Some (errors_New
                  "json: cannot unmarshal array into Go value of type models.ReplayMessage"))
       else (ReplayMessage_zero, Some (errors_New "unexpected end of JSON input"));
     postgres.json_Marshal_ExecutionTree := λ e,
       if runsMarshal e then (emptyObject, None)
       else ([], Some (errors_New "Time.MarshalJSON: year outside of range [0,9999]"));
     postgres.json_Unmarshal_ExecutionTree := λ b,
       if decide (b = emptyObject) then (postgres.ExecutionTree_zero, None)
       else if decide (b = emptyArray) then
         (postgres.ExecutionTree_zero,
          Some (errors_New
                  "json: cannot unmarshal array into Go value of type postgres.ExecutionTree"))
       else (postgres.ExecutionTree_zero, Some (errors_New "unexpected end of JSON input"));
     postgres.DB := list postgres.Replay;
     postgres.DB_FindPreloaded := λ db id,
       found (filter (λ r, (postgres.Replay_ID r : string) = id) db);
     postgres.DB_Find := λ db id,
       found (filter (λ r, (postgres.Replay_ID r : string) = id) db);
     postgres.DB_Save := λ db r,
       (r :: filter (λ r', (postgres.Replay_ID r' : string) ≠ postgres.Replay_ID r) db, None);
     postgres.DB_Create := λ db r, ((db ++ [r])%list, None) |}.

Definition job (name project : string) : JobSpec :=
  {| JobSpec_ID := name; JobSpec_Name := name; JobSpec_Project := project |}.

(** Scenario B of the specification: "ingest" with the dependent
    "transform"; here the dependent belongs to another project and has
    three runs. *)
Definition transform : tree.TreeNode JobSpec :=
  {| tree.Data := job "transform" "analytics"; tree.Dependents := [];
     tree.Runs := {[ 300; 100; 200 ]} |}.

Definition ingest : tree.TreeNode JobSpec :=
  {| tree.Data := job "ingest" "warehouse"; tree.Dependents := [Some transform];
     tree.Runs := {[ 100 ]} |}.

Definition replay : ReplaySpec :=
  {| ReplaySpec_ID := "r-1";
     ReplaySpec_Job := job "ingest" "warehouse";
     ReplaySpec_StartDate := 100;
     ReplaySpec_EndDate := 300;
     ReplaySpec_Status := ReplayStatusCreated;
     ReplaySpec_Message := ReplayMessage_zero;
     ReplaySpec_ExecutionTree := Some ingest;
     ReplaySpec_CreatedAt := 50 |}.

Definition requestID : @UUID textForeign := "r-1".

(** The repository with the replay as created, refusing the updates to
    the statuses [refused]. *)
Definition repoWith (refused : list string) : memRepo :=
  {| stored := replay; refusedStatus := refused |}.

(** A stored row whose message payload is valid JSON, so that the row
    loads, and is an array, which does not read as a message. *)
Definition corruptRow : postgres.Replay :=
  {| postgres.Replay_ID := "r-1"; postgres.Replay_JobID := "ingest";
     postgres.Replay_Job := job "ingest" "warehouse";
     postgres.Replay_StartDate := 100; postgres.Replay_EndDate := 300;
     postgres.Replay_Status := ReplayStatusCreated;
     postgres.Replay_Message := Some emptyArray;
     postgres.Replay_ExecutionTree := Some emptyObject;
     postgres.Replay_CreatedAt := 50; postgres.Replay_UpdatedAt := 50 |}.

(** The repository over a table that holds the corrupt row. *)
Definition corruptRepository : @postgres.replayRepository textForeign boxed plainRows stubBackend :=
  @postgres.NewReplayRepository textForeign boxed plainRows stubBackend [corruptRow] () ().

(** A repository that marks the request and then cannot find it. *)
Definition lostRepository : job.ReplaySpecRepository memRepo :=
  {| job.UpdateStatus := memRepo_UpdateStatus;
     job.GetByID := λ _ r, ((ReplaySpec_zero, Some (errors_New "resource not found")), r) |}.

(** "ingest" with a dependent that has no run. *)
Definition idle : tree.TreeNode JobSpec :=
  {| tree.Data := job "report" "warehouse"; tree.Dependents := []; tree.Runs := ∅ |}.

Definition ingestIdle : tree.TreeNode JobSpec :=
  {| tree.Data := job "ingest" "warehouse"; tree.Dependents := [Some idle];
     tree.Runs := {[ 100 ]} |}.

Definition idleRepo : memRepo :=
  {| stored :=
       {| ReplaySpec_ID := "r-1";
          ReplaySpec_Job := job "ingest" "warehouse";
          ReplaySpec_StartDate := 100;
          ReplaySpec_EndDate := 300;
          ReplaySpec_Status := ReplayStatusCreated;
          ReplaySpec_Message := ReplayMessage_zero;
          ReplaySpec_ExecutionTree := Some ingestIdle;
          ReplaySpec_CreatedAt := 50 |};
     refusedStatus := [] |}.

(** A payload as [toTreeNode] can meet it: nil, a job specification as
    [fromTreeNode] boxes it, or the map of field names that [json.Unmarshal]
    reads from the JSON object of a job specification, in which the
    identifier is a string. *)
Inductive payload : Type :=
  | payloadNil
  | payloadStruct (jobSpec : JobSpec)
  | payloadMap (jobSpec : JobSpec).

(** [mapstructure.Decode] into a job specification: nil leaves the zero
    value, a job specification is copied, and the map is refused, since a
    string does not decode into a [uuid.UUID]. What is left in the target
    is not used. *)
Definition generic : postgres.Dynamic :=
  {| postgres.Any := payload;
     postgres.Any_nil := payloadNil;
     postgres.toAny := payloadStruct;
     postgres.mapstructure_Decode := λ a,
       match a with
       | payloadNil => (JobSpec_zero, None)
       | payloadStruct jobSpec => (jobSpec, None)
       | payloadMap _ =>
           (JobSpec_zero,
            Some (errors_New "'ID': source data must be an array or slice, got string"))
       end |}.

(** What a payload is after [json.Marshal] and [json.Unmarshal]. *)
Definition throughJSON (a : @postgres.Any textForeign generic) : @postgres.Any textForeign generic :=
  match a with
  | payloadNil => payloadNil
  | payloadStruct jobSpec => payloadMap jobSpec
  | payloadMap jobSpec => payloadMap jobSpec
  end.

(** A payload tree as it is read from JSON: a root without data and one
    dependent, "transform". *)
Definition readDependent : @postgres.ExecutionTree textForeign generic :=
  @postgres.mkExecutionTree textForeign generic
    (payloadMap (job "transform" "analytics")) [] [100].

Definition readPayload : @postgres.ExecutionTree textForeign generic :=
  @postgres.mkExecutionTree textForeign generic payloadNil [Some readDependent] [100].

(** The payload tree of a node "ingest" with the runs [runs]. *)
Definition builtPayload (runs : list Time) : @postgres.ExecutionTree textForeign generic :=
  @postgres.mkExecutionTree textForeign generic (payloadStruct (job "ingest" "warehouse"))
    [] runs.

(** What a bulk query makes of the rows that match: all of them, when
    their columns scan. *)
Definition foundAll (matching : list postgres.Replay) : list postgres.Replay * option error :=
  if forallb loads matching then (matching, None)
  else ([], Some (errors_New "unexpected end of JSON input")).

(** The bulk queries over the table of [stubBackend], in the order of the
    table. *)
Definition stubQueries : @postgres.Queries textForeign boxed plainRows stubBackend :=
  @postgres.Build_Queries textForeign boxed plainRows stubBackend
    (λ db status,
       foundAll (filter (λ r, postgres.Replay_Status r ∈ status) (db : list postgres.Replay)))
    (λ db jobID status,
       foundAll (filter (λ r, (postgres.Replay_JobID r : string) = jobID ∧
                              postgres.Replay_Status r ∈ status)
                   (db : list postgres.Replay))).

(** A stored row as [stubBackend] writes it. *)
Definition goodRow : postgres.Replay :=
  {| postgres.Replay_ID := "r-2"; postgres.Replay_JobID := "ingest";
     postgres.Replay_Job := job "ingest" "warehouse";
     postgres.Replay_StartDate := 100; postgres.Replay_EndDate := 300;
     postgres.Replay_Status := ReplayStatusCreated;
     postgres.Replay_Message := Some emptyObject;
     postgres.Replay_ExecutionTree := Some emptyObject;
     postgres.Replay_CreatedAt := 50; postgres.Replay_UpdatedAt := 50 |}.

(** A failed row whose tree payload is valid JSON and an array, which
    does not read as a tree. *)
Definition corruptTreeRow : postgres.Replay :=
  {| postgres.Replay_ID := "r-3"; postgres.Replay_JobID := "ingest";
     postgres.Replay_Job := job "ingest" "warehouse";
     postgres.Replay_StartDate := 100; postgres.Replay_EndDate := 300;
     postgres.Replay_Status := ReplayStatusFailed;
     postgres.Replay_Message := Some emptyObject;
     postgres.Replay_ExecutionTree := Some emptyArray;
     postgres.Replay_CreatedAt := 50; postgres.Replay_UpdatedAt := 50 |}.

(** A row without a tree payload. *)
Definition bareRow : postgres.Replay :=
  {| postgres.Replay_ID := "r-4"; postgres.Replay_JobID := "ingest";
     postgres.Replay_Job := job "ingest" "warehouse";
     postgres.Replay_StartDate := 100; postgres.Replay_EndDate := 300;
     postgres.Replay_Status := ReplayStatusCreated;
     postgres.Replay_Message := Some emptyObject;
     postgres.Replay_ExecutionTree := None;
     postgres.Replay_CreatedAt := 50; postgres.Replay_UpdatedAt := 50 |}.


Definition corruptTreeID : @UUID textForeign := "r-3".

Definition missingID : @UUID textForeign := "r-9".

Definition ingestID : @UUID textForeign := "ingest".

(** The repository over a table of three rows. *)
Definition tableRepository : @postgres.replayRepository textForeign boxed plainRows stubBackend :=
  @postgres.NewReplayRepository textForeign boxed plainRows stubBackend
    [goodRow; corruptRow; corruptTreeRow] () ().

(** The repository over an empty table. *)
Definition emptyRepository : @postgres.replayRepository textForeign boxed plainRows stubBackend :=
  @postgres.NewReplayRepository textForeign boxed plainRows stubBackend [] () ().

(** A replay of "ingest" whose one run is the first instant of the year
    10000. *)
Definition farNode : tree.TreeNode JobSpec :=
  {| tree.Data := job "ingest" "warehouse"; tree.Dependents := [];
     tree.Runs := {[ 315537897600000000000 ]} |}.

Definition farReplay : ReplaySpec :=
  {| ReplaySpec_ID := "r-5";
     ReplaySpec_Job := job "ingest" "warehouse";
     ReplaySpec_StartDate := 315537897600000000000;
     ReplaySpec_EndDate := 315537897600000000000;
     ReplaySpec_Status := ReplayStatusCreated;
     ReplaySpec_Message := ReplayMessage_zero;
     ReplaySpec_ExecutionTree := Some farNode;
     ReplaySpec_CreatedAt := 50 |}.

End fixtures.

(** Two steps the scenarios below repeat: the request is marked, fetched
    and flattened; the scheduler accepts the nodes listed. *)
Ltac fetched := eexists; repeat split; reflexivity.
Ltac cleared := repeat (eapply job.Cleared_cons; [reflexivity..|]); apply job.Cleared_nil.

(** * Properties *)

(** ** Running Go functions *)

Lemma bind_Ok {St A B} (m : Go St A) (f : A → Go St B) st a st' :
  m st = (Ok a, st') → (m ≫= f) st = f a st'.
Proof. intros Hm. unfold mbind, Go_bind. by rewrite Hm. Qed.

Lemma bind_Panicked {St A B} (m : Go St A) (f : A → Go St B) st p st' :
  m st = (Panicked p, st') → (m ≫= f) st = (Panicked p, st').
Proof. intros Hm. unfold mbind, Go_bind. by rewrite Hm. Qed.

Lemma index_Ok {A} (xs : list A) (i : nat) x :
  xs !! i = Some x → index xs (Z.of_nat i) = Ok x.
Proof.
  intros Hx. unfold index.
  pose proof (lookup_lt_Some _ _ _ Hx) as Hlt.
  destruct (decide _) as [_|Hout]; [|lia].
  by rewrite Nat2Z.id, Hx.
Qed.

Lemma index_in_range {A} (xs : list A) (i : Z) :
  0 ≤ i < Z.of_nat (length xs) → ∃ x, index xs i = Ok x.
Proof.
  intros Hi. destruct (lookup_lt_is_Some_2 xs (Z.to_nat i)) as [x Hx]; [lia|].
  exists x. rewrite <- (Z2Nat.id i) by lia. by apply index_Ok.
Qed.

Lemma append_assoc (a b c : string) : (a +:+ b) +:+ c = a +:+ b +:+ c.
Proof.
  induction a as [|ch a IH]; [reflexivity|].
  change (String ch ((a +:+ b) +:+ c) = String ch (a +:+ b +:+ c)).
  by rewrite IH.
Qed.

(** ** The run set *)

Lemma Values_Permutation (s : gset Time) : set.Values s ≡ₚ elements s.
Proof. apply merge_sort_Permutation. Qed.

Lemma Values_length (s : gset Time) : Z.of_nat (length (set.Values s)) = set.Size s.
Proof. unfold set.Size. by rewrite Values_Permutation. Qed.

Lemma Values_Sorted (s : gset Time) : Sorted Z.le (set.Values s).
Proof. apply (Sorted_merge_sort Z.le). Qed.

Lemma Values_nonempty (s : gset Time) : s ≠ ∅ → 0 < set.Size s.
Proof.
  intros Hs. unfold set.Size.
  assert (size s ≠ 0%nat) by (by intros ?%size_empty_iff%leibniz_equiv). lia.
Qed.

Lemma ascending_NoDup (l : list Time) : StronglySorted Z.lt l → NoDup l.
Proof.
  induction 1 as [|x l _ IH Hx]; constructor; [|done].
  intros Hin. rewrite Forall_forall in Hx. specialize (Hx _ Hin). lia.
Qed.

Lemma ascending_Sorted (l : list Time) : StronglySorted Z.lt l → Sorted Z.le l.
Proof.
  intros Hl. apply StronglySorted_Sorted.
  induction Hl as [|x l _ IH Hx]; constructor; [done|].
  eapply Forall_impl; [exact Hx|]. intros; simpl in *; lia.
Qed.

(** A set built from an ascending sequence hands the sequence back. *)
Lemma Values_list_to_set (l : list Time) :
  StronglySorted Z.lt l → set.Values (list_to_set l) = l.
Proof.
  intros Hl. apply (Sorted_unique Z.le).
  - apply Values_Sorted.
  - by apply ascending_Sorted.
  - rewrite Values_Permutation. apply elements_list_to_set, ascending_NoDup, Hl.
Qed.

(** Adding the values of a set one by one rebuilds the set. *)
Lemma foldl_Add (l : list Time) (acc : gset Time) :
  foldl (λ s run, set.Add run s) acc l = list_to_set l ∪ acc.
Proof.
  revert acc. induction l as [|x l IH]; intros acc; simpl.
  - by rewrite (left_id_L ∅ (∪)).
  - rewrite IH. unfold set.Add.
    by rewrite (assoc_L (∪)), (comm_L (∪) (list_to_set l)).
Qed.

Lemma Add_Values (s : gset Time) :
  foldl (λ acc run, set.Add run acc) set.NewTreeSet (set.Values s) = s.
Proof.
  rewrite foldl_Add. unfold set.NewTreeSet.
  rewrite (list_to_set_perm_L _ _ (Values_Permutation s)), list_to_set_elements_L.
  apply (right_id_L ∅ (∪)).
Qed.

(** ** The worker *)
Section worker_calls.
Import models job.
Context `{Foreign} {R S : Type} `{!ReplaySpecRepository R} `{!SchedulerUnit S} `{!Flatten}.
Implicit Types (w : World R S) (r : R) (s : S) (replaySpec : ReplaySpec).

Lemma UpdateStatus_run reqUUID status message w res r' :
  UpdateStatus reqUUID status message (repo w) = (res, r') →
  replaySpecRepo_UpdateStatus reqUUID status message w =
    (Ok res, {| repo := r'; scheduler := scheduler w;
                calls := calls w ++ [CallUpdateStatus reqUUID status message] |}).
Proof.
  intros Hu. unfold replaySpecRepo_UpdateStatus, record, onRepo, mbind, Go_bind.
  simpl. by rewrite Hu.
Qed.

Lemma GetByID_run reqUUID w res r' :
  GetByID reqUUID (repo w) = (res, r') →
  replaySpecRepo_GetByID reqUUID w =
    (Ok res, {| repo := r'; scheduler := scheduler w;
                calls := calls w ++ [CallGetByID reqUUID] |}).
Proof.
  intros Hg. unfold replaySpecRepo_GetByID, record, onRepo, mbind, Go_bind.
  simpl. by rewrite Hg.
Qed.

Lemma Clear_run project jobName startTime endTime w res s' :
  Clear project jobName startTime endTime (scheduler w) = (res, s') →
  scheduler_Clear project jobName startTime endTime w =
    (Ok res, {| repo := repo w; scheduler := s';
                calls := calls w ++ [CallClear project jobName startTime endTime] |}).
Proof.
  intros Hc. unfold scheduler_Clear, record, onScheduler, mbind, Go_bind.
  simpl. by rewrite Hc.
Qed.

Lemma runRange_run {A} treeNode startTime endTime (f : Time * Time → Go (World R S) A) w :
  runRange treeNode = Ok (startTime, endTime) →
  (liftResult (runRange treeNode) ≫= f) w = f (startTime, endTime) w.
Proof. intros Hr. apply bind_Ok. unfold liftResult. by rewrite Hr. Qed.

(** The calls of [Cleared] are one [Clear] for each node, in order, each
    with the node's name and range and the project of the replay's job. *)
Lemma Cleared_calls replaySpec visited s s' cs :
  Cleared replaySpec visited s s' cs →
  Forall2 (λ treeNode c, ∃ startTime endTime,
                           runRange treeNode = Ok (startTime, endTime) ∧
                           c = clearCall replaySpec treeNode startTime endTime)
    visited cs.
Proof. induction 1; constructor; eauto. Qed.

(** The loop passes over the nodes the scheduler accepts. *)
Lemma range_Cleared reqUUID replaySpec visited rest s s' cs :
  Cleared replaySpec visited s s' cs →
  ∀ r cs0,
    rangeReplayDagsMap reqUUID replaySpec (visited ++ rest)
      {| repo := r; scheduler := s; calls := cs0 |} =
    rangeReplayDagsMap reqUUID replaySpec rest
      {| repo := r; scheduler := s'; calls := cs0 ++ cs |}.
Proof.
  induction 1 as [s|treeNode visited startTime endTime s s1 s2 cs Hrange Hclear _ IH];
    intros r cs0.
  - by rewrite app_nil_r.
  - cbn [app rangeReplayDagsMap].
    rewrite (runRange_run _ _ _ _ _ Hrange).
    erewrite bind_Ok by (by apply Clear_run).
    cbn [repo calls]. rewrite IH. unfold clearCall. by rewrite <- app_assoc.
Qed.

(** The loop at a node the scheduler refuses: the failure is logged and
    recorded, and the body returns. *)
Lemma range_refused reqUUID replaySpec treeNode rest w startTime endTime err s' res r' :
  runRange treeNode = Ok (startTime, endTime) →
  Clear (JobSpec_Project (ReplaySpec_Job replaySpec)) (tree.GetName treeNode)
    startTime endTime (scheduler w) = (Some err, s') →
  UpdateStatus reqUUID ReplayStatusFailed (failedMessage treeNode err) (repo w) = (res, r') →
  rangeReplayDagsMap reqUUID replaySpec (treeNode :: rest) w =
    (Ok (Some (Some (default (errors_Wrapf err (clearErrorText (tree.GetName treeNode))) res))),
     {| repo := r'; scheduler := s';
        calls := calls w ++
          [clearCall replaySpec treeNode startTime endTime;
           LogW ("error while running replay " +:+ UUID_String reqUUID +:+ ": " +:+
                 Error (errors_Wrapf err (clearErrorText (tree.GetName treeNode))));
           CallUpdateStatus reqUUID ReplayStatusFailed (failedMessage treeNode err)] |}).
Proof.
  intros Hrange Hclear Hupdate. cbn [rangeReplayDagsMap].
  rewrite (runRange_run _ _ _ _ _ Hrange).
  erewrite bind_Ok by (by apply Clear_run).
  cbv beta iota zeta. erewrite bind_Ok by reflexivity.
  erewrite bind_Ok by (by apply UpdateStatus_run).
  cbn [repo scheduler calls]. rewrite <- !app_assoc.
  by destruct res.
Qed.

(** An invocation that gets to the tree runs the loop from there. *)
Lemma Process_Fetched reqUUID r r' s replaySpec allNodes :
  Fetched reqUUID r r' replaySpec allNodes →
  Process reqUUID (start r s) =
    (returned ← rangeReplayDagsMap reqUUID replaySpec allNodes;
     match returned with
     | Some err => mret err
     | None =>
         err ← replaySpecRepo_UpdateStatus reqUUID ReplayStatusReplayed ReplayMessage_zero;
         match err with
         | Some err => mret (Some err)
         | None =>
             logger_I ("successfully cleared instances of replay id: "
                       +:+ UUID_String reqUUID);;
             mret None
         end
     end) {| repo := r'; scheduler := s; calls := fetchCalls reqUUID |}.
Proof.
  intros (r1 & Hmark & Hget & Hflat). unfold Process.
  rewrite (bind_Ok _ _ _ _ _ (UpdateStatus_run _ _ _ (start r s) _ _ Hmark)).
  cbv beta iota.
  rewrite (bind_Ok _ _ _ _ _
             (GetByID_run reqUUID {| repo := r1; scheduler := s; calls := _ |} _ _ Hget)).
  cbv beta iota.
  etrans.
  { apply bind_Ok. unfold liftResult, ExecutionTree_GetAllNodes. by rewrite Hflat. }
  reflexivity.
Qed.

(** What an invocation does when the scheduler accepts [visited] and then
    refuses [treeNode]; [res] is the answer to the status update. *)
Lemma Process_refused reqUUID r r2 r3 s s1 s2 replaySpec visited treeNode rest cs
    startTime endTime err res :
  Fetched reqUUID r r2 replaySpec (visited ++ treeNode :: rest) →
  Cleared replaySpec visited s s1 cs →
  runRange treeNode = Ok (startTime, endTime) →
  Clear (JobSpec_Project (ReplaySpec_Job replaySpec)) (tree.GetName treeNode)
    startTime endTime s1 = (Some err, s2) →
  UpdateStatus reqUUID ReplayStatusFailed (failedMessage treeNode err) r2 = (res, r3) →
  Process reqUUID (start r s) =
    (Ok (Some (default (errors_Wrapf err (clearErrorText (tree.GetName treeNode))) res)),
     {| repo := r3; scheduler := s2;
        calls := fetchCalls reqUUID ++ cs ++
          [clearCall replaySpec treeNode startTime endTime;
           LogW ("error while running replay " +:+ UUID_String reqUUID +:+ ": " +:+
                 Error (errors_Wrapf err (clearErrorText (tree.GetName treeNode))));
           CallUpdateStatus reqUUID ReplayStatusFailed (failedMessage treeNode err)] |}).
Proof.
  intros Hfetch Hvisited Hrange Hclear Hupdate.
  rewrite (Process_Fetched _ _ _ _ _ _ Hfetch).
  etrans.
  { apply bind_Ok. rewrite (range_Cleared _ _ _ _ _ _ _ Hvisited).
    by eapply range_refused. }
  cbn [calls]. by rewrite <- app_assoc.
Qed.

(** C4. When the first status update, to [InProgress], fails, [Process]
    returns that error at once: the update is the only call it makes (no
    [GetByID], no [Clear], no other update) and the scheduler is left as
    it was. *)
Theorem Process_inProgress_error reqUUID r s inProgressErr r' :
  UpdateStatus reqUUID ReplayStatusInProgress ReplayMessage_zero r = (Some inProgressErr, r') →
  Process reqUUID (start r s) =
    (Ok (Some inProgressErr),
     {| repo := r'; scheduler := s;
        calls := [CallUpdateStatus reqUUID ReplayStatusInProgress ReplayMessage_zero] |}).
Proof.
  intros Hmark. unfold Process.
  by rewrite (bind_Ok _ _ _ _ _ (UpdateStatus_run _ _ _ (start r s) _ _ Hmark)).
Qed.

(** C2. When the scheduler accepts [Clear] for every node of the flattened
    tree, [Process] asks for the status [Replayed] with the empty message
    and returns what that update answers: nil when it succeeds, its error
    when it fails. Success is logged. *)
Theorem Process_all_cleared reqUUID r r2 r3 s s' replaySpec allNodes cs res :
  Fetched reqUUID r r2 replaySpec allNodes →
  Cleared replaySpec allNodes s s' cs →
  UpdateStatus reqUUID ReplayStatusReplayed ReplayMessage_zero r2 = (res, r3) →
  Process reqUUID (start r s) =
    (Ok res,
     {| repo := r3; scheduler := s';
        calls := fetchCalls reqUUID ++ cs ++
          CallUpdateStatus reqUUID ReplayStatusReplayed ReplayMessage_zero ::
          match res with
          | None => [LogI ("successfully cleared instances of replay id: "
                           +:+ UUID_String reqUUID)]
          | Some _ => []
          end |}).
Proof.
  intros Hfetch Hcleared Hupdate.
  rewrite (Process_Fetched _ _ _ _ _ _ Hfetch).
  etrans.
  { apply bind_Ok. rewrite <- (app_nil_r allNodes).
    rewrite (range_Cleared _ _ _ _ _ _ _ Hcleared). reflexivity. }
  cbv beta iota.
  etrans; [apply bind_Ok; by apply UpdateStatus_run|].
  cbn [repo scheduler calls]. rewrite <- app_assoc.
  destruct res as [updateErr|]; [reflexivity|].
  unfold logger_I, record, mbind, Go_bind, mret, Go_ret. cbn [repo scheduler calls].
  by rewrite <- !app_assoc.
Qed.

(** C1, as amended. When the scheduler accepts [Clear] for the nodes
    [visited] and refuses it, with [err], for the next node [treeNode],
    then, whatever the repository answers afterwards: the calls of
    [Process] are the two of the fetch, [Clear] for the nodes of [visited]
    in order, [Clear] for [treeNode], the warning, and the update to
    [Failed] with a message made of the job name of [treeNode] and the
    text of [err], and nothing after it, so [Clear] is called for no node
    of [rest]; the scheduler is left as the refused [Clear] left it. When
    that update succeeds, [Process] returns [err] wrapped with the job
    name. *)
Theorem Process_fail_fast reqUUID r r2 s s1 s2 replaySpec visited treeNode rest cs
    startTime endTime err :
  Fetched reqUUID r r2 replaySpec (visited ++ treeNode :: rest) →
  Cleared replaySpec visited s s1 cs →
  runRange treeNode = Ok (startTime, endTime) →
  Clear (JobSpec_Project (ReplaySpec_Job replaySpec)) (tree.GetName treeNode)
    startTime endTime s1 = (Some err, s2) →
  calls (Process reqUUID (start r s)).2 =
    fetchCalls reqUUID ++ cs ++
      [clearCall replaySpec treeNode startTime endTime;
       LogW ("error while running replay " +:+ UUID_String reqUUID +:+ ": " +:+
             Error (errors_Wrapf err (clearErrorText (tree.GetName treeNode))));
       CallUpdateStatus reqUUID ReplayStatusFailed
         {| ReplayMessage_Type := AirflowClearDagRunFailed;
            ReplayMessage_Message :=
              ("error while clearing dag runs for job " +:+ tree.GetName treeNode)
              +:+ ": " +:+ Error err |}] ∧
  scheduler (Process reqUUID (start r s)).2 = s2 ∧
  ((UpdateStatus reqUUID ReplayStatusFailed (failedMessage treeNode err) r2).1 = None →
   (Process reqUUID (start r s)).1 =
     Ok (Some (errors_Wrapf err (clearErrorText (tree.GetName treeNode))))).
Proof.
  intros Hfetch Hvisited Hrange Hclear.
  destruct (UpdateStatus reqUUID ReplayStatusFailed (failedMessage treeNode err) r2)
    as [res r3] eqn:Hupdate.
  rewrite (Process_refused _ _ _ _ _ _ _ _ _ _ _ _ _ _ _ _
             Hfetch Hvisited Hrange Hclear Hupdate).
  split; [reflexivity|]. split; [reflexivity|].
  cbn [fst]. by intros ->.
Qed.

(** C3. When a node's [Clear] fails and the update that records the
    [Failed] status fails too, [Process] returns the error of the update;
    the scheduler's error is only in the log and in the message of the
    refused update. *)
Theorem Process_update_error_masks reqUUID r r2 r3 s s1 s2 replaySpec visited treeNode rest cs
    startTime endTime err updateStatusErr :
  Fetched reqUUID r r2 replaySpec (visited ++ treeNode :: rest) →
  Cleared replaySpec visited s s1 cs →
  runRange treeNode = Ok (startTime, endTime) →
  Clear (JobSpec_Project (ReplaySpec_Job replaySpec)) (tree.GetName treeNode)
    startTime endTime s1 = (Some err, s2) →
  UpdateStatus reqUUID ReplayStatusFailed (failedMessage treeNode err) r2 =
    (Some updateStatusErr, r3) →
  (Process reqUUID (start r s)).1 = Ok (Some updateStatusErr).
Proof.
  intros Hfetch Hvisited Hrange Hclear Hupdate.
  by rewrite (Process_refused _ _ _ _ _ _ _ _ _ _ _ _ _ _ _ _
                Hfetch Hvisited Hrange Hclear Hupdate).
Qed.

(** C7, as amended. Whenever a node's [Clear] fails, the last call of
    [Process] asks for the status [Failed] with a message whose kind is
    exactly "failed to clear airflow dag run" (the constant
    [AirflowClearDagRunFailed]) and whose detail contains the job name of
    the failing node. *)
Theorem Process_failed_message reqUUID r r2 s s1 s2 replaySpec visited treeNode rest cs
    startTime endTime err :
  Fetched reqUUID r r2 replaySpec (visited ++ treeNode :: rest) →
  Cleared replaySpec visited s s1 cs →
  runRange treeNode = Ok (startTime, endTime) →
  Clear (JobSpec_Project (ReplaySpec_Job replaySpec)) (tree.GetName treeNode)
    startTime endTime s1 = (Some err, s2) →
  ∃ message,
    last (calls (Process reqUUID (start r s)).2) =
      Some (CallUpdateStatus reqUUID ReplayStatusFailed message) ∧
    ReplayMessage_Type message = "failed to clear airflow dag run" ∧
    ∃ before after,
      ReplayMessage_Message message = before +:+ tree.GetName treeNode +:+ after.
Proof.
  intros Hfetch Hvisited Hrange Hclear.
  destruct (UpdateStatus reqUUID ReplayStatusFailed (failedMessage treeNode err) r2)
    as [res r3] eqn:Hupdate.
  exists (failedMessage treeNode err).
  rewrite (Process_refused _ _ _ _ _ _ _ _ _ _ _ _ _ _ _ _
             Hfetch Hvisited Hrange Hclear Hupdate).
  cbn [snd calls]. split; [|split; [reflexivity|]].
  - by rewrite !last_app.
  - exists "error while clearing dag runs for job ", (": " +:+ Error err).
    cbn. unfold clearErrorText. by rewrite append_assoc.
Qed.

Lemma Fetched_fetchedSpec reqUUID r r' replaySpec allNodes :
  Fetched reqUUID r r' replaySpec allNodes → fetchedSpec reqUUID r = replaySpec.
Proof. intros (r1 & Hmark & Hget & _). unfold fetchedSpec. rewrite Hmark. cbn [snd]. by rewrite Hget. Qed.

(** The ways an invocation goes: it stops at the first update, at
    [GetByID] or in [GetAllNodes], or it gets to the tree. *)
Lemma Process_cases reqUUID r s :
  (∃ res w', Process reqUUID (start r s) = (res, w') ∧
             res ≠ Panicked IndexOutOfRange ∧
             Forall (λ c, ∀ p j t1 t2, c ≠ CallClear p j t1 t2) (calls w')) ∨
  (∃ r' replaySpec allNodes, Fetched reqUUID r r' replaySpec allNodes).
Proof.
  destruct (UpdateStatus reqUUID ReplayStatusInProgress ReplayMessage_zero r)
    as [[inProgressErr|] r1] eqn:Hmark.
  { left. eexists _, _. split; [|split].
    - unfold Process.
      by rewrite (bind_Ok _ _ _ _ _ (UpdateStatus_run _ _ _ (start r s) _ _ Hmark)).
    - done.
    - by repeat constructor. }
  destruct (GetByID reqUUID r1) as [[replaySpec [err|]] r2] eqn:Hget;
    [|destruct (GetAllNodes (ReplaySpec_ExecutionTree replaySpec)) as [allNodes|] eqn:Hflat].
  - left. eexists _, _. split; [|split].
    + unfold Process.
      rewrite (bind_Ok _ _ _ _ _ (UpdateStatus_run _ _ _ (start r s) _ _ Hmark)).
      cbv beta iota.
      by rewrite (bind_Ok _ _ _ _ _
                   (GetByID_run reqUUID {| repo := r1; scheduler := s; calls := _ |} _ _ Hget)).
    + done.
    + by repeat constructor.
  - right. exists r2, replaySpec, allNodes. by exists r1.
  - left. eexists _, _. split; [|split].
    + unfold Process.
      rewrite (bind_Ok _ _ _ _ _ (UpdateStatus_run _ _ _ (start r s) _ _ Hmark)).
      cbv beta iota.
      rewrite (bind_Ok _ _ _ _ _
                 (GetByID_run reqUUID {| repo := r1; scheduler := s; calls := _ |} _ _ Hget)).
      cbv beta iota. apply bind_Panicked.
      unfold liftResult, ExecutionTree_GetAllNodes. by rewrite Hflat.
    + done.
    + by repeat constructor.
Qed.

Lemma ownClear_mono replaySpec allNodes allNodes' c :
  allNodes ⊆ allNodes' → ownClear replaySpec allNodes c → ownClear replaySpec allNodes' c.
Proof.
  intros Hsub. destruct c; try done.
  intros [Hp (treeNode & Hin & Hrest)]. split; [done|]. exists treeNode. split; [|done].
  by apply Hsub.
Qed.

(** The loop only adds calls, and every [Clear] among them is for the
    replay's project and one of the nodes. *)
Lemma range_calls reqUUID replaySpec allNodes w :
  ∃ new, calls (rangeReplayDagsMap reqUUID replaySpec allNodes w).2 = calls w ++ new ∧
         Forall (ownClear replaySpec allNodes) new.
Proof.
  revert w. induction allNodes as [|treeNode rest IH]; intros w.
  { exists []. by rewrite app_nil_r. }
  destruct (runRange treeNode) as [[startTime endTime]|p] eqn:Hrange.
  2:{ exists []. cbn [rangeReplayDagsMap]. erewrite bind_Panicked.
      - by rewrite app_nil_r.
      - unfold liftResult. by rewrite Hrange. }
  assert (ownClear replaySpec (treeNode :: rest)
            (clearCall replaySpec treeNode startTime endTime)) as Hown.
  { split; [done|]. exists treeNode. split; [apply list_elem_of_here|done]. }
  destruct (Clear (JobSpec_Project (ReplaySpec_Job replaySpec)) (tree.GetName treeNode)
              startTime endTime (scheduler w)) as [[err|] s'] eqn:Hclear.
  - destruct (UpdateStatus reqUUID ReplayStatusFailed (failedMessage treeNode err) (repo w))
      as [res r'] eqn:Hupdate.
    erewrite range_refused by eassumption. eexists. split; [reflexivity|].
    constructor; [exact Hown|]. by repeat constructor.
  - cbn [rangeReplayDagsMap].
    rewrite (runRange_run _ _ _ _ _ Hrange).
    erewrite bind_Ok by (by apply Clear_run). cbv beta iota.
    destruct (IH {| repo := repo w; scheduler := s';
                    calls := calls w ++ [clearCall replaySpec treeNode startTime endTime] |})
      as (new & Hcalls & Hnew).
    exists (clearCall replaySpec treeNode startTime endTime :: new). split.
    + unfold clearCall in *. rewrite Hcalls. cbn [calls]. by rewrite <- app_assoc.
    + constructor; [done|]. eapply Forall_impl; [exact Hnew|].
      intros c. by apply ownClear_mono, list_subseteq_cons.
Qed.

(** Every [Clear] call of an invocation that gets to the tree is for the
    replay's project and one of the flattened nodes. *)
Lemma Process_calls_own reqUUID r r' s replaySpec allNodes :
  Fetched reqUUID r r' replaySpec allNodes →
  Forall (ownClear replaySpec allNodes) (calls (Process reqUUID (start r s)).2).
Proof.
  intros Hfetch. rewrite (Process_Fetched _ _ _ _ _ _ Hfetch).
  set (w := {| repo := r'; scheduler := s; calls := fetchCalls reqUUID |}).
  destruct (range_calls reqUUID replaySpec allNodes w) as (new & Hcalls & Hnew).
  assert (Forall (ownClear replaySpec allNodes) (calls w ++ new)) as Hall.
  { apply Forall_app. split; [by repeat constructor|done]. }
  rewrite <- Hcalls in Hall. clear Hcalls Hnew.
  destruct (rangeReplayDagsMap reqUUID replaySpec allNodes w) as [[[ret|]|p] w'] eqn:Hloop.
  - by rewrite (bind_Ok _ _ _ _ _ Hloop).
  - rewrite (bind_Ok _ _ _ _ _ Hloop). cbv beta iota.
    destruct (UpdateStatus reqUUID ReplayStatusReplayed ReplayMessage_zero (repo w'))
      as [[err|] r3] eqn:Hupdate;
      rewrite (bind_Ok _ _ _ _ _ (UpdateStatus_run _ _ _ _ _ _ Hupdate)); cbn in *.
    + apply Forall_app. split; [done|]. by repeat constructor.
    + unfold logger_I, record, mbind, Go_bind, mret, Go_ret. cbn [snd calls].
      rewrite !Forall_app. split; [split|]; [done|..]; by repeat constructor.
  - by rewrite (bind_Panicked _ _ _ _ _ Hloop).
Qed.

(** C10. Every [Clear] call of [Process] carries the project of the job of
    the replay that [GetByID] returned, whichever node of the flattened
    tree the call is for: the project in the node's own payload is not
    read. *)
Theorem Clear_project reqUUID r s project jobName startTime endTime :
  CallClear project jobName startTime endTime ∈ calls (Process reqUUID (start r s)).2 →
  project = JobSpec_Project (ReplaySpec_Job (fetchedSpec reqUUID r)) ∧
  ∃ allNodes treeNode,
    GetAllNodes (ReplaySpec_ExecutionTree (fetchedSpec reqUUID r)) = Some allNodes ∧
    treeNode ∈ allNodes ∧ jobName = tree.GetName treeNode.
Proof.
  intros Hin.
  destruct (Process_cases reqUUID r s)
    as [(res & w' & Hrun & _ & Hnone)|(r' & replaySpec & allNodes & Hfetch)].
  - rewrite Hrun in Hin. rewrite Forall_forall in Hnone.
    by destruct (Hnone _ Hin project jobName startTime endTime).
  - pose proof (Process_calls_own _ _ _ s _ _ Hfetch) as Hown.
    rewrite Forall_forall in Hown. destruct (Hown _ Hin) as [-> (treeNode & Hnode & -> & _)].
    rewrite (Fetched_fetchedSpec _ _ _ _ _ Hfetch). split; [done|].
    exists allNodes, treeNode. by destruct Hfetch as (_ & _ & _ & ->).
Qed.

Lemma runRange_ascending treeNode t1 ts tn :
  StronglySorted Z.lt (t1 :: ts) →
  tree.Runs treeNode = list_to_set (t1 :: ts) →
  last (t1 :: ts) = Some tn →
  runRange treeNode = Ok (t1, tn).
Proof.
  intros Hsorted Hruns Hlast. unfold runRange.
  rewrite <- Values_length, Hruns, (Values_list_to_set _ Hsorted).
  change (index (t1 :: ts) 0) with (index (t1 :: ts) (Z.of_nat 0)).
  rewrite (index_Ok (t1 :: ts) 0 t1 eq_refl).
  rewrite last_lookup in Hlast.
  replace (Z.of_nat (length (t1 :: ts)) - 1) with (Z.of_nat (pred (length (t1 :: ts))))
    by (simpl; lia).
  by rewrite (index_Ok _ _ _ Hlast).
Qed.

(** C8. For a node whose run set is the ascending sequence
    [t1 < ... < tn], the range the worker computes is [(t1, tn)], and the
    [Clear] call the loop makes for the node carries exactly these two
    instants. *)
Theorem Clear_range reqUUID replaySpec treeNode rest w t1 ts tn :
  StronglySorted Z.lt (t1 :: ts) →
  tree.Runs treeNode = list_to_set (t1 :: ts) →
  last (t1 :: ts) = Some tn →
  runRange treeNode = Ok (t1, tn) ∧
  ∃ cs, calls (rangeReplayDagsMap reqUUID replaySpec (treeNode :: rest) w).2 =
          calls w ++
          CallClear (JobSpec_Project (ReplaySpec_Job replaySpec)) (tree.GetName treeNode) t1 tn
          :: cs.
Proof.
  intros Hsorted Hruns Hlast.
  pose proof (runRange_ascending _ _ _ _ Hsorted Hruns Hlast) as Hrange.
  split; [done|].
  destruct (Clear (JobSpec_Project (ReplaySpec_Job replaySpec)) (tree.GetName treeNode)
              t1 tn (scheduler w)) as [[err|] s'] eqn:Hclear.
  - destruct (UpdateStatus reqUUID ReplayStatusFailed (failedMessage treeNode err) (repo w))
      as [res r'] eqn:Hupdate.
    erewrite range_refused by eassumption. by eexists.
  - cbn [rangeReplayDagsMap].
    rewrite (runRange_run _ _ _ _ _ Hrange).
    erewrite bind_Ok by (by apply Clear_run). cbv beta iota.
    match goal with
    | |- context [rangeReplayDagsMap _ _ rest ?w'] =>
        destruct (range_calls reqUUID replaySpec rest w') as (new & -> & _)
    end.
    exists new. cbn [calls]. by rewrite <- app_assoc.
Qed.

Lemma runRange_nonempty treeNode :
  tree.Runs treeNode ≠ ∅ → ∃ startTime endTime, runRange treeNode = Ok (startTime, endTime).
Proof.
  intros Hruns%Values_nonempty. unfold runRange.
  destruct (index_in_range (set.Values (tree.Runs treeNode)) 0) as [startTime ->];
    [rewrite Values_length; lia|].
  destruct (index_in_range (set.Values (tree.Runs treeNode)) (set.Size (tree.Runs treeNode) - 1))
    as [endTime ->]; [rewrite Values_length; lia|].
  by exists startTime, endTime.
Qed.

(** Over nodes with runs, the loop returns or runs out: it never panics. *)
Lemma range_returns reqUUID replaySpec allNodes w :
  Forall (λ treeNode, tree.Runs treeNode ≠ ∅) allNodes →
  ∃ returned, (rangeReplayDagsMap reqUUID replaySpec allNodes w).1 = Ok returned.
Proof.
  intros Hruns. revert w.
  induction Hruns as [|treeNode rest Hnode _ IH]; intros w; [by eexists|].
  destruct (runRange_nonempty _ Hnode) as (startTime & endTime & Hrange).
  destruct (Clear (JobSpec_Project (ReplaySpec_Job replaySpec)) (tree.GetName treeNode)
              startTime endTime (scheduler w)) as [[err|] s'] eqn:Hclear.
  - destruct (UpdateStatus reqUUID ReplayStatusFailed (failedMessage treeNode err) (repo w))
      as [res r'] eqn:Hupdate.
    erewrite range_refused by eassumption. by eexists.
  - cbn [rangeReplayDagsMap].
    rewrite (runRange_run _ _ _ _ _ Hrange).
    erewrite bind_Ok by (by apply Clear_run). cbv beta iota. apply IH.
Qed.

(** C9. When every node of the tree of the replay that [GetByID] returns
    has a run, and [GetAllNodes] returns nodes of that tree, no read of
    [runTimes[0]] or [runTimes[Runs.Size()-1]] in [Process] is out of
    range. *)
Theorem runTimes_in_bounds reqUUID r s :
  (∀ allNodes,
     GetAllNodes (ReplaySpec_ExecutionTree (fetchedSpec reqUUID r)) = Some allNodes →
     allNodes ⊆ treeNodes (ReplaySpec_ExecutionTree (fetchedSpec reqUUID r))) →
  Forall (λ treeNode, tree.Runs treeNode ≠ ∅)
    (treeNodes (ReplaySpec_ExecutionTree (fetchedSpec reqUUID r))) →
  (Process reqUUID (start r s)).1 ≠ Panicked IndexOutOfRange.
Proof.
  intros Hflatten Hruns.
  destruct (Process_cases reqUUID r s)
    as [(res & w' & -> & Hres & _)|(r' & replaySpec & allNodes & Hfetch)]; [done|].
  rewrite (Fetched_fetchedSpec _ _ _ _ _ Hfetch) in Hflatten, Hruns.
  assert (Forall (λ treeNode, tree.Runs treeNode ≠ ∅) allNodes) as Hall.
  { destruct Hfetch as (_ & _ & _ & Hflat). specialize (Hflatten _ Hflat).
    rewrite Forall_forall in Hruns |- *. intros treeNode Hin. by apply Hruns, Hflatten. }
  rewrite (Process_Fetched _ _ _ _ _ _ Hfetch).
  set (w := {| repo := r'; scheduler := s; calls := fetchCalls reqUUID |}).
  destruct (range_returns reqUUID replaySpec allNodes w Hall) as [returned Hloop].
  destruct (rangeReplayDagsMap reqUUID replaySpec allNodes w) as [res w'] eqn:Hrun.
  cbn [fst] in Hloop. subst res.
  rewrite (bind_Ok _ _ _ _ _ Hrun). destruct returned as [err|]; [done|].
  destruct (UpdateStatus reqUUID ReplayStatusReplayed ReplayMessage_zero (repo w'))
    as [[err|] r3] eqn:Hupdate;
    by rewrite (bind_Ok _ _ _ _ _ (UpdateStatus_run _ _ _ _ _ _ Hupdate)).
Qed.

End worker_calls.

(** ** The stored tree *)

(** Induction on a tree: a property holds of a node once it holds of its
    dependents that are not nil. *)
Lemma TreeNode_induction {D : Type} (P : tree.TreeNode D → Prop) :
  (∀ data deps runs,
     Forall (from_option P True) deps → P (tree.mkTreeNode data deps runs)) →
  ∀ t, P t.
Proof.
  intros Hnode. fix IH 1. intros [data deps runs]. apply Hnode.
  induction deps as [|[d|] deps IHdeps]; constructor; simpl; auto.
Qed.

Section stored_tree.
Import models postgres.
Context `{Foreign} `{!Dynamic}.
Implicit Types (t treeNode : tree.TreeNode JobSpec) (e : ExecutionTree).

Lemma foldl_AddDependent deps treeNode :
  foldl (λ t d, tree.AddDependent d t) treeNode deps =
    tree.mkTreeNode (tree.Data treeNode) (tree.Dependents treeNode ++ deps)
      (tree.Runs treeNode).
Proof.
  revert treeNode. induction deps as [|d deps IH]; intros [data ds runs]; simpl.
  - by rewrite app_nil_r.
  - rewrite IH. simpl. by rewrite <- app_assoc.
Qed.

Lemma foldl_AddRun runs treeNode :
  foldl (λ t run, tree.AddRun run t) treeNode runs =
    tree.mkTreeNode (tree.Data treeNode) (tree.Dependents treeNode)
      (foldl (λ s run, set.Add run s) (tree.Runs treeNode) runs).
Proof.
  revert treeNode. induction runs as [|run runs IH]; intros [data ds rs]; simpl; [done|].
  by rewrite IH.
Qed.

Lemma fromTreeNode_dependents_outcome deps :
  Forall (from_option
            (λ t, if tree.constructed t then ∃ e, fromTreeNode t = Ok e
                  else fromTreeNode t = Panicked NilPointerDereference) True) deps →
  if forallb (from_option tree.constructed false) deps
  then ∃ es, fromTreeNode_dependents fromTreeNode deps = Ok es
  else fromTreeNode_dependents fromTreeNode deps = Panicked NilPointerDereference.
Proof.
  induction 1 as [|[d|] deps Hd _ IH]; simpl; [by eexists| |done].
  simpl in Hd. destruct (tree.constructed d); simpl.
  - destruct Hd as [e ->]. simpl.
    destruct (forallb _ deps); [destruct IH as [es ->]; by eexists|by rewrite IH].
  - by rewrite Hd.
Qed.

(** [fromTreeNode] returns on a constructed tree and dereferences a nil
    pointer on any other. *)
Lemma fromTreeNode_outcome t :
  if tree.constructed t then ∃ e, fromTreeNode t = Ok e
  else fromTreeNode t = Panicked NilPointerDereference.
Proof.
  induction t as [data deps runs IH] using TreeNode_induction.
  pose proof (fromTreeNode_dependents_outcome deps IH) as Hdeps.
  cbn [tree.constructed fromTreeNode].
  destruct (forallb _ deps); [destruct Hdeps as [es ->]; by eexists|by rewrite Hdeps].
Qed.

Section round_trip.
Variable wire : Any → Any.
Hypothesis Decode_wire : ∀ jobSpec, mapstructure_Decode (wire (toAny jobSpec)) = (jobSpec, None).

(** The dependents come back one by one, in their order. *)
Lemma dependents_round_trip deps :
  Forall (from_option
            (λ t, tree.constructed t = true →
                  ∃ e, fromTreeNode t = Ok e ∧ toTreeNode (transport wire e) = Ok (Some t))
            True) deps →
  forallb (from_option tree.constructed false) deps = true →
  ∃ es, fromTreeNode_dependents fromTreeNode deps = Ok es ∧
        ∀ treeNode,
          toTreeNode_dependents toTreeNode (map (option_map (transport wire)) es) treeNode =
            Ok (foldl (λ t d, tree.AddDependent d t) treeNode deps).
Proof.
  induction 1 as [|[d|] deps Hd _ IH]; simpl; intros Hall.
  - by exists [].
  - apply andb_prop in Hall as [Hcons Hall].
    destruct (Hd Hcons) as (e & Hfrom & Hto).
    destruct (IH Hall) as (es & Hrange & Hback).
    exists (Some e :: es). rewrite Hfrom. simpl. rewrite Hrange. simpl. split; [done|].
    intros treeNode. rewrite Hto. simpl. apply Hback.
  - done.
Qed.

(** Where every payload comes back in a form that decodes to the job
    specification it was, a constructed tree that is written with
    [fromTreeNode] reads back with [toTreeNode] as the same tree: the
    dependents and the runs are carried as they are. *)
Lemma toTreeNode_fromTreeNode_decodable t :
  tree.constructed t = true →
  ∃ e, fromTreeNode t = Ok e ∧ toTreeNode (transport wire e) = Ok (Some t).
Proof.
  induction t as [data deps runs IH] using TreeNode_induction. intros Hcons.
  destruct (dependents_round_trip deps IH Hcons) as (es & Hrange & Hback).
  eexists. split.
  - cbn [fromTreeNode]. rewrite Hrange. reflexivity.
  - cbn [transport toTreeNode]. rewrite Decode_wire, Hback. cbn [mbind Result_bind].
    rewrite foldl_AddRun, foldl_AddDependent. cbn [tree.Data tree.Dependents tree.Runs
      tree.NewTreeNode app].
    by rewrite Add_Values.
Qed.
End round_trip.

(** C5 fails on the code. [toTreeNode] decodes each payload with
    [mapstructure.Decode] and returns nil when that fails: for a
    constructed tree whose root payload, once it has been through the
    codec ([wire]), is refused by [mapstructure.Decode], the tree written
    with [fromTreeNode] reads back with [toTreeNode] as nil, without a
    panic and without an error, where the claim has it read back as the
    tree that was written. *)
Theorem toTreeNode_fromTreeNode_nil (wire : Any → Any) t err :
  tree.constructed t = true →
  (mapstructure_Decode (wire (toAny (tree.Data t)))).2 = Some err →
  ∃ e, fromTreeNode t = Ok e ∧ toTreeNode (transport wire e) = Ok None.
Proof.
  intros Hcons Hdecode.
  pose proof (fromTreeNode_outcome t) as Hout. rewrite Hcons in Hout.
  destruct Hout as [e He]. exists e. split; [done|].
  destruct t as [data deps runs]. cbn [fromTreeNode] in He.
  destruct (fromTreeNode_dependents fromTreeNode deps) as [es|]; [|done].
  injection He as <-. cbn [transport toTreeNode tree.Data] in *.
  destruct (mapstructure_Decode (wire (toAny data))) as [jobSpec [decodeErr|]]; [done|].
  discriminate.
Qed.

End stored_tree.

(** ** Reading a stored row *)
Section stored_row.
Import models postgres.
Context `{Foreign} `{!Dynamic} `{!Rows} `{!Backend}.

(** A row whose tree payload does not unmarshal is refused with the error. *)
Lemma ToSpec_corrupt_tree p jobSpec message payload executionTree err :
  json_Unmarshal_ReplayMessage (bytes (Replay_Message p)) = (message, None) →
  Replay_ExecutionTree p = Some payload →
  json_Unmarshal_ExecutionTree payload = (executionTree, Some err) →
  ToSpec p jobSpec = Ok (ReplaySpec_zero, Some err).
Proof. intros Hmessage Hpayload Htree. unfold ToSpec. by rewrite Hmessage, Hpayload, Htree. Qed.

(** A row whose message payload does not unmarshal is turned into the
    zero replay with a nil error. *)
Lemma ToSpec_corrupt_message p jobSpec message err :
  json_Unmarshal_ReplayMessage (bytes (Replay_Message p)) = (message, Some err) →
  ToSpec p jobSpec = Ok (ReplaySpec_zero, None).
Proof. intros Hmessage. unfold ToSpec. by rewrite Hmessage. Qed.

(** C6 fails on the code. For a stored row that is found and whose job
    and project convert, but whose message payload does not unmarshal,
    [GetByID] returns the zero replay and a nil error, where the claim
    has it return an error. *)
Theorem GetByID_corrupt_message id repo row jobSpec projectSpec message err :
  DB_FindPreloaded (repo_DB repo) id = (row, None) →
  JobSpecAdapter_ToSpec (repo_adapter repo) (Replay_Job row) = (jobSpec, None) →
  Project_ToSpecWithSecrets (Job_Project (Replay_Job row)) (repo_hash repo) =
    (projectSpec, None) →
  json_Unmarshal_ReplayMessage (bytes (Replay_Message row)) = (message, Some err) →
  GetByID id repo = (Ok (ReplaySpec_zero, None), repo).
Proof.
  intros Hfind Hjob Hproject Hmessage. unfold GetByID.
  rewrite Hfind, Hjob, Hproject.
  by rewrite (ToSpec_corrupt_message _ _ _ _ Hmessage).
Qed.

End stored_row.

(** ** The scenarios of the specification, run *)
Section scenarios.
Import models job fixtures.
#[local] Existing Instances textForeign memRepository listScheduler rootFirst.

Lemma Process_inProgress_error_witness :
  let out := Process requestID (start (repoWith ["InProgress"]) []) in
  out.1 = Ok (Some (errors_New "storage unavailable")) ∧
  calls out.2 = [CallUpdateStatus requestID "InProgress" ReplayMessage_zero].
Proof.
  cbv zeta.
  erewrite (Process_inProgress_error requestID (repoWith ["InProgress"]) [])
    by reflexivity.
  split; reflexivity.
Defined.

Lemma Process_all_cleared_witness :
  let out := Process requestID (start (repoWith []) []) in
  out.1 = Ok None ∧
  ReplaySpec_Status (stored (repo out.2)) = "Replayed" ∧
  ReplaySpec_Message (stored (repo out.2)) = ReplayMessage_zero ∧
  calls out.2 =
    [CallUpdateStatus requestID "InProgress" ReplayMessage_zero;
     CallGetByID requestID;
     CallClear "warehouse" "ingest" 100 100;
     CallClear "warehouse" "transform" 100 300;
     CallUpdateStatus requestID "Replayed" ReplayMessage_zero;
     LogI "successfully cleared instances of replay id: r-1"].
Proof.
  cbv zeta.
  erewrite (Process_all_cleared requestID (repoWith []) _ _ [] [] _ [ingest; transform]);
    cycle 1.
  - fetched.
  - cleared.
  - reflexivity.
  - repeat split; reflexivity.
Defined.

Lemma Process_fail_fast_witness :
  let out := Process requestID (start (repoWith []) ["transform"]) in
  out.1 = Ok (Some (errors_Wrapf (errors_New "dag not found")
                      "error while clearing dag runs for job transform")) ∧
  ReplaySpec_Status (stored (repo out.2)) = "Failed" ∧
  calls out.2 =
    [CallUpdateStatus requestID "InProgress" ReplayMessage_zero;
     CallGetByID requestID;
     CallClear "warehouse" "ingest" 100 100;
     CallClear "warehouse" "transform" 100 300;
     LogW ("error while running replay r-1: " +:+
           "error while clearing dag runs for job transform: dag not found");
     CallUpdateStatus requestID "Failed"
       {| ReplayMessage_Type := "failed to clear airflow dag run";
          ReplayMessage_Message :=
            "error while clearing dag runs for job transform: dag not found" |}].
Proof.
  cbv zeta.
  epose proof (Process_fail_fast requestID (repoWith []) _ ["transform"] _ _ _
                 [ingest] transform [] _ 100 300 (errors_New "dag not found")) as Hfail.
  edestruct Hfail as (Hcalls & _ & Hresult).
  - fetched.
  - cleared.
  - reflexivity.
  - reflexivity.
  - split; [apply Hresult; reflexivity|]. split; [reflexivity|exact Hcalls].
Defined.

(** C1 as stated fails where the repository refuses the [Failed] update:
    "ingest" is cleared, "transform" is the first node whose [Clear]
    fails, and [Process] returns the error of the update, not the wrapped
    error of the scheduler; the stored status is not [Failed]. *)
Lemma Process_fail_fast_counterexample :
  let out := Process requestID (start (repoWith ["Failed"]) ["transform"]) in
  calls out.2 !! 2%nat = Some (CallClear "warehouse" "ingest" 100 100) ∧
  calls out.2 !! 3%nat = Some (CallClear "warehouse" "transform" 100 300) ∧
  Clear "warehouse" "ingest" 100 100 ["transform"] = (None, ["transform"]) ∧
  Clear "warehouse" "transform" 100 300 ["transform"] =
    (Some (errors_New "dag not found"), ["transform"]) ∧
  out.1 = Ok (Some (errors_New "storage unavailable")) ∧
  out.1 ≠ Ok (Some (errors_Wrapf (errors_New "dag not found")
                      (clearErrorText "transform"))) ∧
  ReplaySpec_Status (stored (repo out.2)) = "InProgress".
Proof. cbv zeta. vm_compute. repeat split; try reflexivity. discriminate. Qed.

Lemma Process_update_error_masks_witness :
  (Process requestID (start (repoWith ["Failed"]) ["transform"])).1 =
    Ok (Some (errors_New "storage unavailable")).
Proof.
  eapply (Process_update_error_masks requestID (repoWith ["Failed"]) _ _ ["transform"] _ _ _
            [ingest] transform [] _ 100 300 (errors_New "dag not found")).
  - fetched.
  - cleared.
  - reflexivity.
  - reflexivity.
  - reflexivity.
Defined.

Lemma Process_failed_message_witness :
  ∃ message,
    last (calls (Process requestID (start (repoWith []) ["transform"])).2) =
      Some (CallUpdateStatus requestID "Failed" message) ∧
    ReplayMessage_Type message = "failed to clear airflow dag run" ∧
    ∃ before after, ReplayMessage_Message message = before +:+ "transform" +:+ after.
Proof.
  eapply (Process_failed_message requestID (repoWith []) _ ["transform"] _ _ _
            [ingest] transform [] _ 100 300 (errors_New "dag not found")).
  - fetched.
  - cleared.
  - reflexivity.
  - reflexivity.
Defined.

(** C7 as stated fails: when the [Clear] of "transform" fails, the kind of
    the message that is recorded, and stored, is not the text
    "scheduler clear failed". *)
Lemma Process_failed_message_counterexample :
  let out := Process requestID (start (repoWith []) ["transform"]) in
  Clear "warehouse" "transform" 100 300 ["transform"] =
    (Some (errors_New "dag not found"), ["transform"]) ∧
  last (calls out.2) =
    Some (CallUpdateStatus requestID "Failed"
            {| ReplayMessage_Type := "failed to clear airflow dag run";
               ReplayMessage_Message :=
                 "error while clearing dag runs for job transform: dag not found" |}) ∧
  ReplayMessage_Type (ReplaySpec_Message (stored (repo out.2))) ≠ "scheduler clear failed".
Proof. cbv zeta. vm_compute. repeat split; try reflexivity. discriminate. Qed.


(** The node "transform" carries the project "analytics"; its [Clear]
    is called with the project of the replay's job, "warehouse". *)
Lemma Clear_project_witness :
  JobSpec_Project (tree.Data transform) = "analytics" ∧
  "warehouse" = JobSpec_Project (ReplaySpec_Job (fetchedSpec requestID (repoWith []))) ∧
  ∃ allNodes treeNode,
    GetAllNodes (ReplaySpec_ExecutionTree (fetchedSpec requestID (repoWith []))) =
      Some allNodes ∧
    treeNode ∈ allNodes ∧ "transform" = tree.GetName treeNode.
Proof.
  split; [reflexivity|].
  apply (Clear_project requestID (repoWith []) [] "warehouse" "transform" 100 300).
  vm_compute. do 3 apply list_elem_of_further. apply list_elem_of_here.
Defined.

Lemma Clear_range_witness :
  runRange transform = Ok (100, 300) ∧
  ∃ cs, calls (rangeReplayDagsMap requestID replay [transform]
                 (start (repoWith []) ([] : list string))).2 =
          CallClear "warehouse" "transform" 100 300 :: cs.
Proof.
  apply (Clear_range requestID replay transform [] (start (repoWith []) ([] : list string))
           100 [200; 300] 300).
  - repeat constructor; lia.
  - vm_compute. reflexivity.
  - reflexivity.
Defined.

Lemma runTimes_in_bounds_witness :
  (Process requestID (start (repoWith []) [])).1 ≠ Panicked IndexOutOfRange.
Proof.
  apply (runTimes_in_bounds requestID (repoWith []) []).
  - intros allNodes Hflat. vm_compute in Hflat. injection Hflat as <-.
    vm_compute. done.
  - vm_compute. repeat constructor; discriminate.
Defined.

End scenarios.

Section stored_scenarios.
Import models postgres fixtures.
#[local] Existing Instances textForeign boxed plainRows stubBackend.

Lemma GetByID_corrupt_message_witness :
  Replay_Message corruptRow = Some [x5b; x5d] ∧
  GetByID requestID corruptRepository = (Ok (ReplaySpec_zero, None), corruptRepository).
Proof.
  split; [reflexivity|].
  eapply (GetByID_corrupt_message requestID corruptRepository corruptRow).
  - reflexivity.
  - reflexivity.
  - reflexivity.
  - reflexivity.
Defined.

End stored_scenarios.

(** * More of the worker *)
Section worker_outcomes.
Import models job.
Context `{Foreign} {R S : Type} `{!ReplaySpecRepository R} `{!SchedulerUnit S} `{!Flatten}.
Implicit Types (w : World R S) (r : R) (s : S) (replaySpec : ReplaySpec).

(** How the loop ends from a world [w]: it runs out after the scheduler
    accepted every node, or the scheduler refuses a node after accepting
    the ones before it, or the range of a node cannot be read. *)
Lemma range_outcome reqUUID replaySpec allNodes w :
  (∃ s' cs,
     Cleared replaySpec allNodes (scheduler w) s' cs ∧
     rangeReplayDagsMap reqUUID replaySpec allNodes w =
       (Ok None, {| repo := repo w; scheduler := s'; calls := calls w ++ cs |})) ∨
  (∃ visited treeNode rest s1 cs startTime endTime err s2 res r',
     allNodes = visited ++ treeNode :: rest ∧
     Cleared replaySpec visited (scheduler w) s1 cs ∧
     runRange treeNode = Ok (startTime, endTime) ∧
     Clear (JobSpec_Project (ReplaySpec_Job replaySpec)) (tree.GetName treeNode)
       startTime endTime s1 = (Some err, s2) ∧
     UpdateStatus reqUUID ReplayStatusFailed (failedMessage treeNode err) (repo w) = (res, r') ∧
     rangeReplayDagsMap reqUUID replaySpec allNodes w =
       (Ok (Some (Some (default (errors_Wrapf err (clearErrorText (tree.GetName treeNode))) res))),
        {| repo := r'; scheduler := s2;
           calls := calls w ++ cs ++
             [clearCall replaySpec treeNode startTime endTime;
              failureLog reqUUID treeNode err;
              CallUpdateStatus reqUUID ReplayStatusFailed (failedMessage treeNode err)] |})) ∨
  (∃ visited treeNode rest s1 cs p,
     allNodes = visited ++ treeNode :: rest ∧
     Cleared replaySpec visited (scheduler w) s1 cs ∧
     runRange treeNode = Panicked p ∧
     rangeReplayDagsMap reqUUID replaySpec allNodes w =
       (Panicked p, {| repo := repo w; scheduler := s1; calls := calls w ++ cs |})).
Proof.
  revert w. induction allNodes as [|treeNode rest IH]; intros w.
  { left. exists (scheduler w), []. split; [constructor|].
    rewrite app_nil_r. by destruct w. }
  destruct (runRange treeNode) as [[startTime endTime]|p] eqn:Hrange.
  2:{ right; right. exists [], treeNode, rest, (scheduler w), [], p.
      split; [done|]. split; [constructor|]. split; [done|].
      cbn [rangeReplayDagsMap]. erewrite bind_Panicked.
      - rewrite app_nil_r. by destruct w.
      - unfold liftResult. by rewrite Hrange. }
  destruct (Clear (JobSpec_Project (ReplaySpec_Job replaySpec)) (tree.GetName treeNode)
              startTime endTime (scheduler w)) as [[err|] s1] eqn:Hclear.
  - destruct (UpdateStatus reqUUID ReplayStatusFailed (failedMessage treeNode err) (repo w))
      as [res r'] eqn:Hupdate.
    right; left.
    exists [], treeNode, rest, (scheduler w), [], startTime, endTime, err, s1, res, r'.
    split; [done|]. split; [constructor|]. do 3 (split; [done|]).
    by erewrite range_refused by eassumption.
  - assert (rangeReplayDagsMap reqUUID replaySpec (treeNode :: rest) w =
            rangeReplayDagsMap reqUUID replaySpec rest
              {| repo := repo w; scheduler := s1;
                 calls := calls w ++ [clearCall replaySpec treeNode startTime endTime] |})
      as ->.
    { cbn [rangeReplayDagsMap]. rewrite (runRange_run _ _ _ _ _ Hrange).
      by erewrite bind_Ok by (by apply Clear_run). }
    destruct (IH {| repo := repo w; scheduler := s1;
                    calls := calls w ++ [clearCall replaySpec treeNode startTime endTime] |})
      as [(s' & cs & Hcs & ->)
         |[(visited & k & rest' & s2 & cs & st & en & err & s3 & res & r' &
            -> & Hcs & Hk & Hrefuse & Hupdate & ->)
          |(visited & k & rest' & s2 & cs & p & -> & Hcs & Hk & ->)]];
      cbn [repo scheduler calls] in *.
    + left. eexists s', _. split; [by eapply Cleared_cons|].
      by rewrite <- app_assoc.
    + right; left.
      exists (treeNode :: visited), k, rest', s2,
        (clearCall replaySpec treeNode startTime endTime :: cs), st, en, err, s3, res, r'.
      split; [done|]. split; [by eapply Cleared_cons|]. do 3 (split; [done|]).
      by rewrite <- !app_assoc.
    + right; right.
      exists (treeNode :: visited), k, rest', s2,
        (clearCall replaySpec treeNode startTime endTime :: cs), p.
      split; [done|]. split; [by eapply Cleared_cons|]. split; [done|].
      by rewrite <- app_assoc.
Qed.

(** [Process] ends in one of the ways of [Ended]. *)
Lemma Process_Ended reqUUID r s :
  Ended reqUUID r s (Process reqUUID (start r s)).1 (Process reqUUID (start r s)).2.
Proof.
  destruct (UpdateStatus reqUUID ReplayStatusInProgress ReplayMessage_zero r)
    as [[inProgressErr|] r1] eqn:Hmark.
  { assert (Process reqUUID (start r s) =
            (Ok (Some inProgressErr),
             {| repo := r1; scheduler := s;
                calls := [CallUpdateStatus reqUUID ReplayStatusInProgress
                            ReplayMessage_zero] |})) as ->.
    { unfold Process.
      by rewrite (bind_Ok _ _ _ _ _ (UpdateStatus_run _ _ _ (start r s) _ _ Hmark)). }
    by apply Ended_mark. }
  destruct (GetByID reqUUID r1) as [[replaySpec [err|]] r2] eqn:Hget;
    [|destruct (GetAllNodes (ReplaySpec_ExecutionTree replaySpec)) as [allNodes|] eqn:Hflat].
  - assert (Process reqUUID (start r s) =
            (Ok (Some err), {| repo := r2; scheduler := s; calls := fetchCalls reqUUID |}))
      as ->.
    { unfold Process.
      rewrite (bind_Ok _ _ _ _ _ (UpdateStatus_run _ _ _ (start r s) _ _ Hmark)).
      cbv beta iota.
      by rewrite (bind_Ok _ _ _ _ _
                   (GetByID_run reqUUID {| repo := r1; scheduler := s; calls := _ |} _ _ Hget)). }
    by eapply Ended_fetch.
  - assert (Fetched reqUUID r r2 replaySpec allNodes) as Hfetch by (by exists r1).
    rewrite (Process_Fetched _ _ _ s _ _ Hfetch).
    set (w := {| repo := r2; scheduler := s; calls := fetchCalls reqUUID |}).
    destruct (range_outcome reqUUID replaySpec allNodes w)
      as [(s' & cs & Hcs & Hloop)
         |[(visited & k & rest & s1 & cs & st & en & err & s2 & res & r3 &
            -> & Hcs & Hk & Hrefuse & Hupdate & Hloop)
          |(visited & k & rest & s1 & cs & p & -> & Hcs & Hk & Hloop)]].
    + rewrite (bind_Ok _ _ _ _ _ Hloop). cbv beta iota.
      destruct (UpdateStatus reqUUID ReplayStatusReplayed ReplayMessage_zero r2)
        as [res r3] eqn:Hupdate.
      rewrite (bind_Ok _ _ _ _ _
                 (UpdateStatus_run reqUUID _ _
                    {| repo := r2; scheduler := s'; calls := _ |} _ _ Hupdate)).
      pose proof (Ended_replayed reqUUID r s r2 replaySpec allNodes s' cs res r3
                    Hfetch Hcs Hupdate) as Hend.
      destruct res as [updateErr|]; cbn [repo scheduler calls].
      * cbn in *. rewrite <- ?app_assoc. exact Hend.
      * unfold logger_I, record, successLog, mbind, Go_bind, mret, Go_ret in *. cbn in *.
        rewrite <- ?app_assoc. exact Hend.
    + rewrite (bind_Ok _ _ _ _ _ Hloop).
      pose proof (Ended_failed reqUUID r s r2 replaySpec visited k rest s1 cs st en err s2
                    res r3 Hfetch Hcs Hk Hrefuse Hupdate) as Hend.
      cbn in *. rewrite <- ?app_assoc. exact Hend.
    + rewrite (bind_Panicked _ _ _ _ _ Hloop).
      pose proof (Ended_range reqUUID r s r2 replaySpec visited k rest s1 cs p
                    Hfetch Hcs Hk) as Hend.
      cbn in *. exact Hend.
  - assert (Process reqUUID (start r s) =
            (Panicked NilPointerDereference,
             {| repo := r2; scheduler := s; calls := fetchCalls reqUUID |})) as ->.
    { unfold Process.
      rewrite (bind_Ok _ _ _ _ _ (UpdateStatus_run _ _ _ (start r s) _ _ Hmark)).
      cbv beta iota.
      rewrite (bind_Ok _ _ _ _ _
                 (GetByID_run reqUUID {| repo := r1; scheduler := s; calls := _ |} _ _ Hget)).
      cbv beta iota. apply bind_Panicked.
      unfold liftResult, ExecutionTree_GetAllNodes. by rewrite Hflat. }
    by eapply Ended_flatten.
Qed.

Lemma clearCalls_app (cs1 cs2 : list Call) :
  clearCalls (cs1 ++ cs2) = clearCalls cs1 ++ clearCalls cs2.
Proof. apply List.filter_app. Qed.

Lemma statusUpdates_app (cs1 cs2 : list Call) :
  statusUpdates (cs1 ++ cs2) = statusUpdates cs1 ++ statusUpdates cs2.
Proof. apply omap_app. Qed.

Lemma Cleared_clearCalls replaySpec visited s s' cs :
  Cleared replaySpec visited s s' cs → clearCalls cs = cs ∧ statusUpdates cs = [].
Proof.
  induction 1 as [|? ? ? ? ? ? ? ? _ _ _ [IH1 IH2]]; [done|].
  unfold clearCalls, statusUpdates in *. cbn. by rewrite IH1, IH2.
Qed.

(** X1. When the request is marked in progress and [GetByID] then fails,
    [Process] returns the error of [GetByID]: the two calls are all it
    makes, and the scheduler is left as it was. *)
Theorem Process_GetByID_error reqUUID r s r1 replaySpec err r2 :
  UpdateStatus reqUUID ReplayStatusInProgress ReplayMessage_zero r = (None, r1) →
  GetByID reqUUID r1 = ((replaySpec, Some err), r2) →
  Process reqUUID (start r s) =
    (Ok (Some err),
     {| repo := r2; scheduler := s;
        calls := [CallUpdateStatus reqUUID ReplayStatusInProgress ReplayMessage_zero;
                  CallGetByID reqUUID] |}).
Proof.
  intros Hmark Hget. unfold Process.
  rewrite (bind_Ok _ _ _ _ _ (UpdateStatus_run _ _ _ (start r s) _ _ Hmark)).
  cbv beta iota.
  by rewrite (bind_Ok _ _ _ _ _
               (GetByID_run reqUUID {| repo := r1; scheduler := s; calls := _ |} _ _ Hget)).
Qed.

(** X2. Whatever the repository and the scheduler answer, the [Clear] calls
    of [Process] are one call for each node of an initial stretch of the
    flattened nodes, in the order of the flattening, each with the node's
    name and range: no node is cleared twice, none is skipped, and none is
    cleared after the stretch ends. *)
Theorem Process_clears_in_order reqUUID r s :
  ∃ visited,
    visited `prefix_of`
      default [] (GetAllNodes (ReplaySpec_ExecutionTree (fetchedSpec reqUUID r))) ∧
    Forall2 (λ treeNode c, ∃ startTime endTime,
                             runRange treeNode = Ok (startTime, endTime) ∧
                             c = clearCall (fetchedSpec reqUUID r) treeNode startTime endTime)
      visited (clearCalls (calls (Process reqUUID (start r s)).2)).
Proof.
  destruct (Process_Ended reqUUID r s)
    as [inProgressErr r' Hmark
       |r1 replaySpec err r2 Hmark Hget
       |r1 replaySpec r2 Hmark Hget Hflat
       |r2 replaySpec allNodes s' cs res r3 Hfetch Hcs Hupdate
       |r2 replaySpec visited treeNode rest s1 cs startTime endTime err s2 res r3
          Hfetch Hcs Hrange Hclear Hupdate
       |r2 replaySpec visited treeNode rest s1 cs p Hfetch Hcs Hrange];
    cbn [calls].
  1-3: by (exists []; split; [apply prefix_nil|constructor]).
  all: rewrite (Fetched_fetchedSpec _ _ _ _ _ Hfetch);
    pose proof Hfetch as (_ & _ & _ & ->); cbn [default from_option];
    destruct (Cleared_clearCalls _ _ _ _ _ Hcs) as [Hclears _];
    pose proof (Cleared_calls _ _ _ _ _ Hcs) as Hcalls;
    rewrite !clearCalls_app, Hclears.
  - exists allNodes. split; [by exists []; rewrite app_nil_r|].
    destruct res; cbn; rewrite app_nil_r; exact Hcalls.
  - exists (visited ++ [treeNode]). cbn. split.
    + exists rest. by rewrite <- app_assoc.
    + apply Forall2_app; [exact Hcalls|]. constructor; [|constructor]. eauto.
  - exists visited. cbn. split; [by exists (treeNode :: rest)|exact Hcalls].
Qed.

(** X3. Whatever the repository and the scheduler answer, the status
    updates of [Process] are: the request to [InProgress] with the empty
    message, and then at most one more, either to [Replayed] with the empty
    message or to [Failed] with the message of a failed [Clear]. Each is
    for the request itself. *)
Theorem Process_status_updates reqUUID r s :
  let updates := statusUpdates (calls (Process reqUUID (start r s)).2) in
  updates = [(reqUUID, ReplayStatusInProgress, ReplayMessage_zero)] ∨
  updates = [(reqUUID, ReplayStatusInProgress, ReplayMessage_zero);
             (reqUUID, ReplayStatusReplayed, ReplayMessage_zero)] ∨
  ∃ treeNode err,
    updates = [(reqUUID, ReplayStatusInProgress, ReplayMessage_zero);
               (reqUUID, ReplayStatusFailed, failedMessage treeNode err)].
Proof.
  cbv zeta.
  destruct (Process_Ended reqUUID r s)
    as [inProgressErr r' Hmark
       |r1 replaySpec err r2 Hmark Hget
       |r1 replaySpec r2 Hmark Hget Hflat
       |r2 replaySpec allNodes s' cs res r3 Hfetch Hcs Hupdate
       |r2 replaySpec visited treeNode rest s1 cs startTime endTime err s2 res r3
          Hfetch Hcs Hrange Hclear Hupdate
       |r2 replaySpec visited treeNode rest s1 cs p Hfetch Hcs Hrange];
    cbn [calls].
  1-3: by left.
  all: destruct (Cleared_clearCalls _ _ _ _ _ Hcs) as [_ Hnone];
    rewrite !statusUpdates_app, Hnone.
  - right; left. by destruct res.
  - right; right. by exists treeNode, err.
  - by left.
Qed.

(** X4. [Process] returns nil only when the request was fetched, the
    scheduler accepted [Clear] for every flattened node, and the update to
    [Replayed] succeeded; the last call is then the success log. *)
Theorem Process_nil_result reqUUID r s :
  (Process reqUUID (start r s)).1 = Ok None →
  ∃ r2 replaySpec allNodes s' cs r3,
    Fetched reqUUID r r2 replaySpec allNodes ∧
    Cleared replaySpec allNodes s s' cs ∧
    UpdateStatus reqUUID ReplayStatusReplayed ReplayMessage_zero r2 = (None, r3) ∧
    (Process reqUUID (start r s)).2 =
      {| repo := r3; scheduler := s';
         calls := fetchCalls reqUUID ++ cs ++
           [CallUpdateStatus reqUUID ReplayStatusReplayed ReplayMessage_zero;
            successLog reqUUID] |}.
Proof.
  destruct (Process_Ended reqUUID r s)
    as [inProgressErr r' Hmark
       |r1 replaySpec err r2 Hmark Hget
       |r1 replaySpec r2 Hmark Hget Hflat
       |r2 replaySpec allNodes s' cs res r3 Hfetch Hcs Hupdate
       |r2 replaySpec visited treeNode rest s1 cs startTime endTime err s2 res r3
          Hfetch Hcs Hrange Hclear Hupdate
       |r2 replaySpec visited treeNode rest s1 cs p Hfetch Hcs Hrange];
    intros Hnil; try discriminate.
  injection Hnil as ->. by exists r2, replaySpec, allNodes, s', cs, r3.
Qed.

Lemma runRange_empty (treeNode : tree.TreeNode JobSpec) :
  tree.Runs treeNode = ∅ → runRange treeNode = Panicked IndexOutOfRange.
Proof. intros Hruns. unfold runRange. rewrite Hruns. reflexivity. Qed.

(** X5. When the loop reaches a node that has no run, [Process] panics with
    an index out of range on reading [runTimes[0]]: [Clear] is not called
    for that node or any later one, no further status is written, and the
    request is left as the first update made it. *)
Theorem Process_empty_runs reqUUID r r2 s s1 replaySpec visited treeNode rest cs :
  Fetched reqUUID r r2 replaySpec (visited ++ treeNode :: rest) →
  Cleared replaySpec visited s s1 cs →
  tree.Runs treeNode = ∅ →
  Process reqUUID (start r s) =
    (Panicked IndexOutOfRange,
     {| repo := r2; scheduler := s1; calls := fetchCalls reqUUID ++ cs |}).
Proof.
  intros Hfetch Hvisited Hruns%runRange_empty.
  rewrite (Process_Fetched _ _ _ _ _ _ Hfetch).
  apply bind_Panicked.
  rewrite (range_Cleared _ _ _ _ _ _ _ Hvisited). cbn [rangeReplayDagsMap].
  apply bind_Panicked. unfold liftResult. by rewrite Hruns.
Qed.

End worker_outcomes.

(** * More of the stored tree *)

Lemma ExecutionTree_induction `{Foreign} `{!postgres.Dynamic}
    (P : postgres.ExecutionTree → Prop) :
  (∀ data deps runs,
     Forall (from_option P True) deps → P (postgres.mkExecutionTree data deps runs)) →
  ∀ e, P e.
Proof.
  intros Hnode. fix IH 1. intros [data deps runs]. apply Hnode.
  induction deps as [|[d|] deps IHdeps]; constructor; simpl; auto.
Qed.

Section stored_tree_edges.
Import models postgres.
Context `{Foreign} `{!Dynamic}.
Implicit Types (t treeNode : tree.TreeNode JobSpec) (e : ExecutionTree).

(** X6. [fromTreeNode] returns exactly on the trees none of whose
    dependents, at any depth, is a nil pointer; on every other tree it
    panics with a nil pointer dereference. *)
Theorem fromTreeNode_Ok_iff_constructed t :
  ((∃ e, fromTreeNode t = Ok e) ↔ tree.constructed t = true) ∧
  (fromTreeNode t = Panicked NilPointerDereference ↔ tree.constructed t = false).
Proof.
  pose proof (fromTreeNode_outcome t) as Hout.
  destruct (tree.constructed t); split; split; try done.
  - destruct Hout as [e ->]. discriminate.
  - intros [e He]. by rewrite Hout in He.
Qed.

Lemma toTreeNode_dependents_returns deps :
  Forall (from_option (λ e, wellFormed e = true → ∃ root, toTreeNode e = Ok root) True) deps →
  forallb (from_option wellFormed false) deps = true →
  ∀ treeNode, ∃ t, toTreeNode_dependents toTreeNode deps treeNode = Ok t.
Proof.
  induction 1 as [|[d|] deps Hd _ IH]; simpl; intros Hall treeNode; [by eexists| |done].
  apply andb_prop in Hall as [Hwf Hall]. destruct (Hd Hwf) as [root ->]. simpl.
  by apply IH.
Qed.

(** X7. On a payload tree without nil dependents [toTreeNode] does not
    panic: it returns a node, or nil when the root payload does not
    decode. *)
Theorem toTreeNode_wellFormed e :
  wellFormed e = true → ∃ root, toTreeNode e = Ok root.
Proof.
  induction e as [data deps runs IH] using ExecutionTree_induction. intros Hwf.
  cbn [toTreeNode]. destruct (mapstructure_Decode data) as [jobSpec [err|]]; [by eexists|].
  destruct (toTreeNode_dependents_returns deps IH Hwf (tree.NewTreeNode jobSpec)) as [t ->].
  by eexists.
Qed.

(** What the loop over the dependents leaves: the payload and the runs of
    the node untouched, and one more dependent for each payload, in order,
    each the outcome of [toTreeNode] on it. *)
Lemma toTreeNode_dependents_inv deps treeNode t :
  toTreeNode_dependents toTreeNode deps treeNode = Ok t →
  tree.Data t = tree.Data treeNode ∧ tree.Runs t = tree.Runs treeNode ∧
  ∃ added, tree.Dependents t = tree.Dependents treeNode ++ added ∧
           Forall2 (λ d o, ∃ c, d = Some c ∧ toTreeNode c = Ok o) deps added.
Proof.
  revert treeNode. induction deps as [|[d|] deps IH]; simpl; intros treeNode Hrun.
  - injection Hrun as <-. do 2 (split; [done|]). exists []. by rewrite app_nil_r.
  - destruct (toTreeNode d) as [o|] eqn:Hd; [|done]. simpl in Hrun.
    destruct (IH _ Hrun) as (Hdata & Hruns & added & Hdeps & Hadded).
    do 2 (split; [done|]). exists (o :: added). split.
    + rewrite Hdeps. simpl. by rewrite <- app_assoc.
    + constructor; [by exists d|done].
  - done.
Qed.

Lemma toTreeNode_inv e t :
  toTreeNode e = Ok (Some t) →
  mapstructure_Decode (ExecutionTree_Data e) = (tree.Data t, None) ∧
  tree.Runs t = list_to_set (ExecutionTree_Runs e) ∧
  Forall2 (λ d o, ∃ c, d = Some c ∧ toTreeNode c = Ok o)
    (ExecutionTree_Dependents e) (tree.Dependents t).
Proof.
  destruct e as [data deps runs]. cbn [toTreeNode ExecutionTree_Data ExecutionTree_Runs
    ExecutionTree_Dependents].
  destruct (mapstructure_Decode data) as [jobSpec [err|]]; [done|].
  destruct (toTreeNode_dependents toTreeNode deps (tree.NewTreeNode jobSpec))
    as [t'|] eqn:Hdeps; [|done].
  simpl. intros [= <-].
  destruct (toTreeNode_dependents_inv _ _ _ Hdeps) as (Hdata & Hruns & added & Hadded & Hall).
  rewrite foldl_AddRun, foldl_Add, Hdata, Hruns, Hadded. cbn.
  split; [done|]. split; [|done]. unfold set.NewTreeSet. apply (right_id_L ∅ (∪)).
Qed.

Lemma toTreeNode_undecodable e err :
  (mapstructure_Decode (ExecutionTree_Data e)).2 = Some err → toTreeNode e = Ok None.
Proof.
  destruct e as [data deps runs]. cbn [toTreeNode ExecutionTree_Data].
  by destruct (mapstructure_Decode data) as [jobSpec [err'|]].
Qed.

Lemma constructed_nil_dependent t : None ∈ tree.Dependents t → tree.constructed t = false.
Proof.
  destruct t as [data deps runs]. cbn [tree.Dependents tree.constructed].
  induction deps as [|[d|] deps IH]; intros Hin.
  - by apply elem_of_nil in Hin.
  - apply elem_of_cons in Hin as [|Hin]; [done|]. simpl. rewrite (IH Hin).
    by destruct (tree.constructed d).
  - done.
Qed.

(** X8. A dependent whose payload does not decode is no error for
    [toTreeNode]: the node it returns has a nil pointer among its
    dependents, and [fromTreeNode] panics on that node. *)
Theorem toTreeNode_undecodable_dependent e t d err :
  toTreeNode e = Ok (Some t) →
  Some d ∈ ExecutionTree_Dependents e →
  (mapstructure_Decode (ExecutionTree_Data d)).2 = Some err →
  None ∈ tree.Dependents t ∧ fromTreeNode t = Panicked NilPointerDereference.
Proof.
  intros (_ & _ & Hdeps)%toTreeNode_inv [i Hi]%list_elem_of_lookup_1 Hdecode.
  destruct (Forall2_lookup_l _ _ _ i _ Hdeps Hi) as (o & Ho & c & [= <-] & Hc).
  rewrite (toTreeNode_undecodable _ _ Hdecode) in Hc. injection Hc as <-.
  assert (None ∈ tree.Dependents t) as Hnil by (by eapply list_elem_of_lookup_2).
  split; [done|].
  pose proof (fromTreeNode_outcome t) as Hout.
  by rewrite (constructed_nil_dependent _ Hnil) in Hout.
Qed.

(** X9. [toTreeNode] reads the runs of a payload as a set: two payloads
    that differ only in the order or the repetition of their runs give the
    same node. *)
Theorem toTreeNode_runs_as_set data deps runs1 runs2 :
  list_to_set runs1 =@{gset Time} list_to_set runs2 →
  toTreeNode (mkExecutionTree data deps runs1) = toTreeNode (mkExecutionTree data deps runs2).
Proof.
  intros Hruns. cbn [toTreeNode].
  destruct (mapstructure_Decode data) as [jobSpec [err|]]; [done|].
  destruct (toTreeNode_dependents toTreeNode deps (tree.NewTreeNode jobSpec)) as [t|]; [|done].
  simpl. by rewrite !foldl_AddRun, !foldl_Add, Hruns.
Qed.

End stored_tree_edges.

(** * More of the repository *)
Section repository_edges.
Import models postgres.
Context `{Foreign} `{!Dynamic} `{!Rows} `{!Backend}.

(** X11. A row without a tree payload does not read back as a replay
    without a tree: [ToSpec] hands the zero [ExecutionTree] to
    [toTreeNode], so, where the nil payload decodes, the replay gets one
    node with no dependent and no run, and the worker's read of the range of
    that node is out of range. *)
Theorem ToSpec_nil_tree p jobSpec message decoded :
  json_Unmarshal_ReplayMessage (bytes (Replay_Message p)) = (message, None) →
  Replay_ExecutionTree p = None →
  mapstructure_Decode Any_nil = (decoded, None) →
  ∃ replaySpec,
    ToSpec p jobSpec = Ok (replaySpec, None) ∧
    ReplaySpec_ExecutionTree replaySpec = Some (tree.NewTreeNode decoded) ∧
    job.runRange (tree.NewTreeNode decoded) = Panicked IndexOutOfRange.
Proof.
  intros Hmessage Hnil Hdecode. eexists. split; [|split].
  - unfold ToSpec. rewrite Hmessage, Hnil. cbn. rewrite Hdecode. reflexivity.
  - reflexivity.
  - reflexivity.
Qed.

Lemma errors_Is_wrapped (name text : string) (msgs : list string) :
  errors_Is (foldr (λ msg err, errors_Wrapf err msg) (errorVar name text) msgs)
    (errorVar name text) = true.
Proof.
  induction msgs as [|msg msgs IH]; simpl; [|exact IH].
  by rewrite bool_decide_eq_true_2.
Qed.

(** X12. When the lookup of [GetByID] reports [gorm.ErrRecordNotFound],
    bare or wrapped any number of times, [GetByID] answers the zero replay
    with the not-found error of package store, and the text of the
    reported error is dropped. *)
Theorem GetByID_not_found id repo row (msgs : list string) :
  DB_FindPreloaded (repo_DB repo) id =
    (row, Some (foldr (λ msg err, errors_Wrapf err msg) gorm_ErrRecordNotFound msgs)) →
  GetByID id repo = (Ok (ReplaySpec_zero, Some store_ErrResourceNotFound), repo).
Proof.
  intros Hfind. unfold GetByID. rewrite Hfind. unfold gorm_ErrRecordNotFound.
  by rewrite errors_Is_wrapped.
Qed.

(** X13. For a row that is found, whose job and project convert and whose
    message reads, a tree payload that does not unmarshal makes [GetByID]
    return the zero replay with the error of [json.Unmarshal]. *)
Theorem GetByID_corrupt_tree id repo row jobSpec projectSpec message payload executionTree err :
  DB_FindPreloaded (repo_DB repo) id = (row, None) →
  JobSpecAdapter_ToSpec (repo_adapter repo) (Replay_Job row) = (jobSpec, None) →
  Project_ToSpecWithSecrets (Job_Project (Replay_Job row)) (repo_hash repo) =
    (projectSpec, None) →
  json_Unmarshal_ReplayMessage (bytes (Replay_Message row)) = (message, None) →
  Replay_ExecutionTree row = Some payload →
  json_Unmarshal_ExecutionTree payload = (executionTree, Some err) →
  GetByID id repo = (Ok (ReplaySpec_zero, Some err), repo).
Proof.
  intros Hfind Hjob Hproject Hmessage Hpayload Htree. unfold GetByID.
  rewrite Hfind, Hjob, Hproject.
  by rewrite (ToSpec_corrupt_tree _ _ _ _ _ _ Hmessage Hpayload Htree).
Qed.

(** X14. Whatever error the lookup of [UpdateStatus] reports, the answer
    is the one error "could not update non-existing replay": nothing is
    saved and the reported error is dropped. *)
Theorem UpdateStatus_lookup_error replayID status message repo row err :
  DB_Find (repo_DB repo) replayID = (row, Some err) →
  UpdateStatus replayID status message repo =
    (Ok (Some (errors_New "could not update non-existing replay")), repo).
Proof. intros Hfind. unfold UpdateStatus. by rewrite Hfind. Qed.


(** X17. When the tree of a replay does not marshal, [Insert] returns the
    error of [json.Marshal] and creates no row. *)
Theorem Insert_tree_error replay repo message root payload err :
  json_Marshal_ReplayMessage (ReplaySpec_Message replay) = (message, None) →
  ReplaySpec_ExecutionTree replay = Some root →
  tree.constructed root = true →
  (∀ e, fromTreeNode root = Ok e → json_Marshal_ExecutionTree e = (payload, Some err)) →
  Insert replay repo = (Ok (Some err), repo).
Proof.
  intros Hmarshal Htree Hcons Hfail.
  pose proof (fromTreeNode_outcome root) as Hout. rewrite Hcons in Hout.
  destruct Hout as [e He].
  unfold Insert, FromSpec. rewrite Hmarshal, Htree, He. cbn [mbind Result_bind].
  by rewrite (Hfail e He).
Qed.

End repository_edges.

(** * The queries over many rows *)
Section query_edges.
Import models postgres.
Context `{Foreign} `{!Dynamic} `{!Rows} `{!Backend} `{!Queries}.

Lemma GetByID_found id repo row :
  DB_FindPreloaded (repo_DB repo) id = (row, None) →
  GetByID id repo = (rowSpec repo row, repo).
Proof.
  intros Hfind. unfold GetByID, rowSpec. rewrite Hfind.
  destruct (JobSpecAdapter_ToSpec _ _) as [jobSpec [err|]]; [done|].
  by destruct (Project_ToSpecWithSecrets _ _) as [projectSpec [err|]].
Qed.

Lemma GetByStatus_range_cons repo r rest replaySpecs :
  GetByStatus_range repo (r :: rest) replaySpecs =
    match rowSpec repo r with
    | Ok (replaySpec, None) => GetByStatus_range repo rest (replaySpecs ++ [replaySpec])
    | Ok (_, Some err) => Ok ([], Some err)
    | Panicked p => Panicked p
    end.
Proof.
  cbn [GetByStatus_range]. unfold rowSpec.
  destruct (JobSpecAdapter_ToSpec _ _) as [jobSpec [err|]]; [done|].
  destruct (Project_ToSpecWithSecrets _ _) as [projectSpec [err|]]; [done|].
  cbv zeta. by destruct (ToSpec _ _) as [[replaySpec [err|]]|p].
Qed.

Lemma GetByStatus_range_Ok repo replays replaySpecs specs :
  GetByStatus_range repo replays replaySpecs = Ok (specs, None) ↔
  ∃ new, specs = replaySpecs ++ new ∧
         Forall2 (λ row spec, rowSpec repo row = Ok (spec, None)) replays new.
Proof.
  revert replaySpecs. induction replays as [|r rest IH]; intros replaySpecs.
  - cbn [GetByStatus_range]. split.
    + intros [= <-]. exists []. by rewrite app_nil_r.
    + intros (new & -> & ->%Forall2_nil_inv_l). by rewrite app_nil_r.
  - rewrite GetByStatus_range_cons. split.
    + destruct (rowSpec repo r) as [[replaySpec [err|]]|p] eqn:Hrow; [done| |done].
      intros (new & -> & Hnew)%IH. exists (replaySpec :: new).
      split; [by rewrite <- app_assoc|]. by constructor.
    + intros (new & -> & (spec & new' & Hrow & Hnew & ->)%Forall2_cons_inv_l).
      rewrite Hrow. apply IH. exists new'. by rewrite <- app_assoc.
Qed.

Lemma GetByStatus_range_error repo good bad rest replaySpecs goodSpecs zero err :
  Forall2 (λ row spec, rowSpec repo row = Ok (spec, None)) good goodSpecs →
  rowSpec repo bad = Ok (zero, Some err) →
  GetByStatus_range repo (good ++ bad :: rest) replaySpecs = Ok ([], Some err).
Proof.
  intros Hgood Hbad. revert replaySpecs.
  induction Hgood as [|row spec good goodSpecs Hrow _ IH]; intros replaySpecs.
  - by rewrite app_nil_l, GetByStatus_range_cons, Hbad.
  - by rewrite <- app_comm_cons, GetByStatus_range_cons, Hrow.
Qed.

(** X18. Where the query by status finds rows that the query by ID finds
    again, [GetByStatus] answers a list of replays without error exactly
    when [GetByID] answers each of the rows without error, and the list is
    then the answers of [GetByID], one per row and in the order of the
    rows. *)
Theorem GetByStatus_as_GetByID status repo replays specs :
  DB_FindByStatus (repo_DB repo) status = (replays, None) →
  (∀ row, row ∈ replays → DB_FindPreloaded (repo_DB repo) (Replay_ID row) = (row, None)) →
  GetByStatus status repo = (Ok (specs, None), repo) ↔
  Forall2 (λ row spec, GetByID (Replay_ID row) repo = (Ok (spec, None), repo)) replays specs.
Proof.
  intros Hfind Hsame. unfold GetByStatus. rewrite Hfind.
  assert (Forall2 (λ row spec, GetByID (Replay_ID row) repo = (Ok (spec, None), repo))
            replays specs ↔
          Forall2 (λ row spec, rowSpec repo row = Ok (spec, None)) replays specs) as ->.
  { clear Hfind. revert specs. induction replays as [|row rest IH]; intros specs.
    - split; intros ->%Forall2_nil_inv_l; constructor.
    - assert (GetByID (Replay_ID row) repo = (rowSpec repo row, repo)) as Hrow.
      { apply GetByID_found, Hsame. by left. }
      assert (∀ r, r ∈ rest → DB_FindPreloaded (repo_DB repo) (Replay_ID r) = (r, None))
        as Hrest by (intros r Hr; apply Hsame; by right).
      split; intros (spec & specs' & Hspec & Hspecs & ->)%Forall2_cons_inv_l;
        constructor; try (by apply (IH Hrest)).
      + rewrite Hrow in Hspec. by injection Hspec.
      + by rewrite Hrow, Hspec. }
  split.
  - intros [= (new & -> & Hnew)%GetByStatus_range_Ok]. done.
  - intros Hspecs. f_equal. apply GetByStatus_range_Ok. by exists specs.
Qed.

(** X19. [GetByStatus] gives all or nothing: when a row does not convert,
    the replays of the rows before it are dropped, and the answer is the
    empty list with the error of that row, which is the error [GetByID]
    answers for it. *)
Theorem GetByStatus_first_error status repo good bad rest zero err :
  DB_FindByStatus (repo_DB repo) status = (good ++ bad :: rest, None) →
  (∀ row, row ∈ good ++ [bad] →
          DB_FindPreloaded (repo_DB repo) (Replay_ID row) = (row, None)) →
  Forall (λ row, ∃ spec, GetByID (Replay_ID row) repo = (Ok (spec, None), repo)) good →
  GetByID (Replay_ID bad) repo = (Ok (zero, Some err), repo) →
  GetByStatus status repo = (Ok ([], Some err), repo).
Proof.
  intros Hfind Hsame Hgood Hbad. unfold GetByStatus. rewrite Hfind. f_equal.
  rewrite (GetByID_found _ _ bad) in Hbad by (apply Hsame, elem_of_app; right; by left).
  injection Hbad as Hbad.
  assert (∃ goodSpecs, Forall2 (λ row spec, rowSpec repo row = Ok (spec, None)) good goodSpecs)
    as [goodSpecs HgoodSpecs].
  { assert (∀ row, row ∈ good → DB_FindPreloaded (repo_DB repo) (Replay_ID row) = (row, None))
      as Hsame' by (intros row Hrow; apply Hsame, elem_of_app; by left).
    clear Hfind Hsame Hbad. induction Hgood as [|row good [spec Hspec] _ IH].
    - by exists [].
    - destruct IH as [goodSpecs IH]; [intros r Hr; apply Hsame'; by right|].
      exists (spec :: goodSpecs). constructor; [|done].
      rewrite (GetByID_found _ _ row) in Hspec by (apply Hsame'; by left). by injection Hspec. }
  by eapply GetByStatus_range_error.
Qed.

(** X20. A row whose message does not unmarshal does not stop
    [GetByStatus]: whenever the job and the project of the row convert and
    the query ends without error, the list holds the zero replay at the
    place of that row. *)
Theorem GetByStatus_corrupt_message status repo replays specs i row jobSpec projectSpec
    message err :
  DB_FindByStatus (repo_DB repo) status = (replays, None) →
  replays !! i = Some row →
  JobSpecAdapter_ToSpec (repo_adapter repo) (Replay_Job row) = (jobSpec, None) →
  Project_ToSpecWithSecrets (Job_Project (Replay_Job row)) (repo_hash repo) =
    (projectSpec, None) →
  json_Unmarshal_ReplayMessage (bytes (Replay_Message row)) = (message, Some err) →
  GetByStatus status repo = (Ok (specs, None), repo) →
  specs !! i = Some ReplaySpec_zero.
Proof.
  intros Hfind Hrow Hjob Hproject Hmessage. unfold GetByStatus. rewrite Hfind.
  intros [= (new & -> & Hnew)%GetByStatus_range_Ok]. rewrite app_nil_l.
  destruct (Forall2_lookup_l _ _ _ i _ Hnew Hrow) as (spec & -> & Hspec).
  unfold rowSpec in Hspec. rewrite Hjob, Hproject in Hspec.
  rewrite (ToSpec_corrupt_message _ _ _ _ Hmessage) in Hspec. by injection Hspec as <-.
Qed.

Lemma GetByJobIDAndStatus_range_Ok repo replays replaySpecs specs :
  GetByJobIDAndStatus_range repo replays replaySpecs = Ok (specs, None) ↔
  ∃ new, specs = replaySpecs ++ new ∧
         Forall2 (λ row spec,
                    ∃ jobSpec,
                      JobSpecAdapter_ToSpec (repo_adapter repo) (Replay_Job row) =
                        (jobSpec, None) ∧
                      ToSpec row jobSpec = Ok (spec, None)) replays new.
Proof.
  revert replaySpecs. induction replays as [|r rest IH]; intros replaySpecs.
  - cbn [GetByJobIDAndStatus_range]. split.
    + intros [= <-]. exists []. by rewrite app_nil_r.
    + intros (new & -> & ->%Forall2_nil_inv_l). by rewrite app_nil_r.
  - cbn [GetByJobIDAndStatus_range]. split.
    + destruct (JobSpecAdapter_ToSpec _ _) as [jobSpec [err|]] eqn:Hjob; [done|].
      destruct (ToSpec r jobSpec) as [[replaySpec [err|]]|p] eqn:Hrow; [done| |done].
      cbn [mbind Result_bind]. intros (new & -> & Hnew)%IH. exists (replaySpec :: new).
      split; [by rewrite <- app_assoc|]. constructor; [|done]. by exists jobSpec.
    + intros (new & -> & (spec & new' & (jobSpec & Hjob & Hrow) & Hnew & ->)%Forall2_cons_inv_l).
      rewrite Hjob, Hrow. cbn [mbind Result_bind]. apply IH. exists new'.
      by rewrite <- app_assoc.
Qed.

(** X21. [GetByJobIDAndStatus] answers a list of replays without error
    exactly when, for each row found, the job converts and [ToSpec] reads
    the row with that job; the list is those replays, one per row and in
    the order of the rows. The project of the job is not converted: each
    replay carries the job as the adapter returned it. *)
Theorem GetByJobIDAndStatus_specs jobID status repo replays specs :
  DB_FindByJobIDAndStatus (repo_DB repo) jobID status = (replays, None) →
  GetByJobIDAndStatus jobID status repo = (Ok (specs, None), repo) ↔
  Forall2 (λ row spec,
             ∃ jobSpec,
               JobSpecAdapter_ToSpec (repo_adapter repo) (Replay_Job row) = (jobSpec, None) ∧
               ToSpec row jobSpec = Ok (spec, None)) replays specs.
Proof.
  intros Hfind. unfold GetByJobIDAndStatus. rewrite Hfind. split.
  - intros [= (new & -> & Hnew)%GetByJobIDAndStatus_range_Ok]. done.
  - intros Hspecs. f_equal. apply GetByJobIDAndStatus_range_Ok. by exists specs.
Qed.

End query_edges.

(** * Scenarios of the worker's other outcomes *)
Section lost_scenarios.
Import models job fixtures.
#[local] Existing Instances textForeign lostRepository listScheduler rootFirst.

Lemma Process_GetByID_error_witness :
  let out := Process requestID (start (repoWith []) []) in
  out.1 = Ok (Some (errors_New "resource not found")) ∧
  calls out.2 = [CallUpdateStatus requestID "InProgress" ReplayMessage_zero;
                 CallGetByID requestID] ∧
  scheduler out.2 = [].
Proof.
  cbv zeta.
  erewrite (Process_GetByID_error requestID (repoWith []) []) by reflexivity.
  repeat split; reflexivity.
Defined.

End lost_scenarios.

Section outcome_scenarios.
Import models job fixtures.
#[local] Existing Instances textForeign memRepository listScheduler rootFirst.

Lemma Process_nil_result_witness :
  (Process requestID (start (repoWith []) [])).1 = Ok None ∧
  ∃ r2 replaySpec allNodes s' cs r3,
    Fetched requestID (repoWith []) r2 replaySpec allNodes ∧
    Cleared replaySpec allNodes [] s' cs ∧
    UpdateStatus requestID ReplayStatusReplayed ReplayMessage_zero r2 = (None, r3) ∧
    (Process requestID (start (repoWith []) [])).2 =
      {| repo := r3; scheduler := s';
         calls := fetchCalls requestID ++ cs ++
           [CallUpdateStatus requestID ReplayStatusReplayed ReplayMessage_zero;
            successLog requestID] |}.
Proof.
  split; [reflexivity|].
  apply (Process_nil_result requestID (repoWith []) []). reflexivity.
Defined.

Lemma Process_empty_runs_witness :
  let out := Process requestID (start idleRepo []) in
  out.1 = Panicked IndexOutOfRange ∧
  calls out.2 = [CallUpdateStatus requestID "InProgress" ReplayMessage_zero;
                 CallGetByID requestID;
                 CallClear "warehouse" "ingest" 100 100] ∧
  ReplaySpec_Status (stored (repo out.2)) = "InProgress".
Proof.
  cbv zeta.
  erewrite (Process_empty_runs requestID idleRepo _ [] _ _ [ingestIdle] idle [] _); cycle 1.
  - fetched.
  - cleared.
  - reflexivity.
  - repeat split; reflexivity.
Defined.

End outcome_scenarios.

(** * Scenarios of the stored tree *)
Section stored_tree_scenarios.
Import models postgres fixtures.
#[local] Existing Instances textForeign generic.

Lemma toTreeNode_fromTreeNode_nil_witness :
  ∃ e, fromTreeNode ingest = Ok e ∧ toTreeNode (transport throughJSON e) = Ok None.
Proof.
  apply (toTreeNode_fromTreeNode_nil throughJSON ingest
           (errors_New "'ID': source data must be an array or slice, got string")).
  - reflexivity.
  - reflexivity.
Defined.

Lemma toTreeNode_wellFormed_witness :
  ∃ root, toTreeNode readPayload = Ok root.
Proof. apply toTreeNode_wellFormed. reflexivity. Defined.

Lemma toTreeNode_undecodable_dependent_witness :
  let t := {| tree.Data := JobSpec_zero; tree.Dependents := [None];
              tree.Runs := {[ 100 ]} |} in
  toTreeNode readPayload = Ok (Some t) ∧
  None ∈ tree.Dependents t ∧ fromTreeNode t = Panicked NilPointerDereference.
Proof.
  cbv zeta. split; [reflexivity|].
  apply (toTreeNode_undecodable_dependent readPayload _ readDependent
           (errors_New "'ID': source data must be an array or slice, got string")).
  - reflexivity.
  - by left.
  - reflexivity.
Defined.

Lemma toTreeNode_runs_as_set_witness :
  toTreeNode (builtPayload [200; 100; 200]) = toTreeNode (builtPayload [100; 200]).
Proof. apply toTreeNode_runs_as_set. reflexivity. Defined.

End stored_tree_scenarios.

(** * Scenarios of the repository *)
Section table_scenarios.
Import models postgres fixtures.
#[local] Existing Instances textForeign boxed plainRows stubBackend stubQueries.

Lemma ToSpec_nil_tree_witness :
  ∃ replaySpec,
    ToSpec bareRow (job "ingest" "warehouse") = Ok (replaySpec, None) ∧
    ReplaySpec_ExecutionTree replaySpec = Some (tree.NewTreeNode JobSpec_zero) ∧
    job.runRange (tree.NewTreeNode JobSpec_zero) = Panicked IndexOutOfRange.
Proof.
  apply (ToSpec_nil_tree bareRow (job "ingest" "warehouse") ReplayMessage_zero JobSpec_zero).
  - reflexivity.
  - reflexivity.
  - reflexivity.
Defined.

Lemma GetByID_not_found_witness :
  GetByID missingID tableRepository =
    (Ok (ReplaySpec_zero, Some store_ErrResourceNotFound), tableRepository).
Proof.
  apply (GetByID_not_found missingID tableRepository Replay_zero []). reflexivity.
Defined.

Lemma GetByID_corrupt_tree_witness :
  GetByID corruptTreeID tableRepository =
    (Ok (ReplaySpec_zero,
         Some (errors_New
                 "json: cannot unmarshal array into Go value of type postgres.ExecutionTree")),
     tableRepository).
Proof.
  eapply (GetByID_corrupt_tree corruptTreeID tableRepository corruptTreeRow).
  - reflexivity.
  - reflexivity.
  - reflexivity.
  - reflexivity.
  - reflexivity.
  - reflexivity.
Defined.

Lemma UpdateStatus_lookup_error_witness :
  UpdateStatus missingID ReplayStatusInProgress ReplayMessage_zero tableRepository =
    (Ok (Some (errors_New "could not update non-existing replay")), tableRepository).
Proof.
  eapply (UpdateStatus_lookup_error missingID). reflexivity.
Defined.


Lemma GetByStatus_as_GetByID_witness :
  ∃ spec,
    GetByStatus [ReplayStatusCreated] tableRepository =
      (Ok ([spec; ReplaySpec_zero], None), tableRepository) ∧
    ReplaySpec_ID spec = Replay_ID goodRow.
Proof.
  eexists. split.
  - apply (GetByStatus_as_GetByID [ReplayStatusCreated] tableRepository [goodRow; corruptRow]).
    + reflexivity.
    + intros row [->|[->|[]%elem_of_nil]%elem_of_cons]%elem_of_cons; reflexivity.
    + repeat constructor.
  - reflexivity.
Defined.

Lemma GetByStatus_first_error_witness :
  GetByStatus [ReplayStatusCreated; ReplayStatusFailed] tableRepository =
    (Ok ([], Some (errors_New
                     "json: cannot unmarshal array into Go value of type postgres.ExecutionTree")),
     tableRepository).
Proof.
  eapply (GetByStatus_first_error [ReplayStatusCreated; ReplayStatusFailed] tableRepository
            [goodRow; corruptRow] corruptTreeRow []).
  - reflexivity.
  - intros row [->|[->|[->|[]%elem_of_nil]%elem_of_cons]%elem_of_cons]%elem_of_cons;
      reflexivity.
  - repeat constructor; eexists; reflexivity.
  - reflexivity.
Defined.

Lemma GetByStatus_corrupt_message_witness :
  ∃ spec,
    GetByStatus [ReplayStatusCreated] tableRepository =
      (Ok ([spec; ReplaySpec_zero], None), tableRepository) ∧
    [spec; ReplaySpec_zero] !! 1%nat = Some ReplaySpec_zero.
Proof.
  eexists. split; [reflexivity|].
  eapply (GetByStatus_corrupt_message [ReplayStatusCreated] tableRepository
            [goodRow; corruptRow] _ 1%nat corruptRow).
  - reflexivity.
  - reflexivity.
  - reflexivity.
  - reflexivity.
  - reflexivity.
  - reflexivity.
Defined.

Lemma GetByJobIDAndStatus_specs_witness :
  ∃ spec,
    GetByJobIDAndStatus ingestID [ReplayStatusCreated] tableRepository =
      (Ok ([spec; ReplaySpec_zero], None), tableRepository) ∧
    ReplaySpec_Job spec = job "ingest" "warehouse".
Proof.
  eexists. split.
  - apply (GetByJobIDAndStatus_specs ingestID [ReplayStatusCreated]
             tableRepository [goodRow; corruptRow]).
    + reflexivity.
    + repeat constructor; eexists; split; reflexivity.
  - reflexivity.
Defined.

Lemma Insert_tree_error_witness :
  Insert farReplay emptyRepository =
    (Ok (Some (errors_New "Time.MarshalJSON: year outside of range [0,9999]")),
     emptyRepository).
Proof.
  apply (Insert_tree_error farReplay emptyRepository emptyObject farNode []).
  - reflexivity.
  - reflexivity.
  - reflexivity.
  - intros e He. vm_compute in He. injection He as <-. reflexivity.
Defined.

End table_scenarios.
